(** * tsag: time-series anomaly generator (src/tsag/tsag.py)

    A shallow embedding of the anomaly classes of [tsag.py] and of the
    fragment of pandas / numpy they call.

    Numeric idealisation: a binary64 value is an exact rational ([Qc]) or
    [NaN]; rounding, overflow and the infinities are outside the model.
    A pandas [Series] is its list of rows (index label, value), and pandas
    is the 1.x line the module was written against ([Series.append]
    exists).  The numpy global generator is a stream of standard-normal
    draws with a cursor; [np.random.normal(loc, scale, n)] is
    [loc + scale * z] for the next [n] draws [z], as numpy's legacy
    generator computes it. *)

From Stdlib Require Import QArith Qcanon Qround ZArith Lia.
From stdpp Require Import base numbers list option strings gmap.

Local Open Scope Z_scope.

(* ===================================================================== *)
(** * Python values used by the module *)
(* ===================================================================== *)

(** A Python [float]. *)
Inductive float : Type :=
  | Fin (q : Qc)
  | NaN.

#[global] Instance float_eq_dec : EqDecision float.
Proof. solve_decision. Defined.

Definition f0 : float := Fin (Q2Qc 0).
Definition f1 : float := Fin (Q2Qc 1).

(** Arithmetic: a NaN operand gives NaN. *)
Definition fbinop (op : Qc -> Qc -> Qc) (x y : float) : float :=
  match x, y with
  | Fin a, Fin b => Fin (op a b)
  | _, _ => NaN
  end.

Definition fadd : float -> float -> float := fbinop Qcplus.
Definition fsub : float -> float -> float := fbinop Qcminus.
Definition fmul : float -> float -> float := fbinop Qcmult.

(** Comparisons: any comparison with NaN is [False]. *)
Definition flt (x y : float) : bool :=
  match x, y with
  | Fin a, Fin b => bool_decide (a < b)%Qc
  | _, _ => false
  end.

Definition fle (x y : float) : bool :=
  match x, y with
  | Fin a, Fin b => bool_decide (a <= b)%Qc
  | _, _ => false
  end.

(** The exceptions the modelled code paths can raise. *)
Inductive PyExc : Type :=
  | NotImplementedError
  | ValueError
  | TypeError
  | ZeroDivisionError
  | AttributeError.

#[global] Instance PyExc_eq_dec : EqDecision PyExc.
Proof. solve_decision. Defined.

Inductive result (A : Type) : Type :=
  | Ok (a : A)
  | Raise (e : PyExc).
Arguments Ok {A} a.
Arguments Raise {A} e.

Definition is_ok {A} (r : result A) : bool :=
  match r with Ok _ => true | Raise _ => false end.

(** [x / y] on floats: a zero divisor raises [ZeroDivisionError]. *)
Definition fdiv (x y : float) : result float :=
  match x, y with
  | Fin a, Fin b =>
      if bool_decide (b = Q2Qc 0) then Raise ZeroDivisionError
      else Ok (Fin (a / b)%Qc)
  | Fin _, NaN => Ok NaN
  | NaN, Fin b =>
      if bool_decide (b = Q2Qc 0) then Raise ZeroDivisionError else Ok NaN
  | NaN, NaN => Ok NaN
  end.

(** [int(x)]: truncation towards zero; [int(nan)] raises [ValueError]. *)
Definition Qtrunc (q : Q) : Z :=
  if Qle_bool 0 q then Qfloor q else Qceiling q.

Definition py_int (x : float) : result Z :=
  match x with
  | Fin q => Ok (Qtrunc q)
  | NaN => Raise ValueError
  end.

(** An argument that the caller may pass as an [int] or as a [float]
    (the [count] of [PointAnomaly]). *)
Inductive pynum : Type :=
  | PyInt (z : Z)
  | PyFloat (x : float).

(** [range(n)] as the number of iterations of a [for] loop over it:
    a negative [int] gives the empty range, a [float] is a [TypeError]. *)
Definition py_range (n : pynum) : result nat :=
  match n with
  | PyInt z => Ok (Z.to_nat z)
  | PyFloat _ => Raise TypeError
  end.

(* ===================================================================== *)
(** * The numpy generator and the monad of the module's code *)
(* ===================================================================== *)

Record RandomState : Type := mkRandomState {
  gauss : nat -> Qc;   (* the standard-normal draws, in order *)
  cursor : nat         (* how many have been consumed *)
}.

(** Code that may draw random numbers and may raise. *)
Definition Py (A : Type) : Type := RandomState -> result A * RandomState.

Definition raise {A} (e : PyExc) : Py A := fun rs => (Raise e, rs).
Definition lift {A} (r : result A) : Py A := fun rs => (r, rs).

#[global] Instance Py_ret : MRet Py := fun A a rs => (Ok a, rs).
#[global] Instance Py_bind : MBind Py := fun A B k m rs =>
  match m rs with
  | (Ok a, rs') => k a rs'
  | (Raise e, rs') => (Raise e, rs')
  end.

(** The generator after [n] more draws. *)
Definition advance (rs : RandomState) (n : nat) : RandomState :=
  mkRandomState (gauss rs) (cursor rs + n).

(** The [i]-th next normal sample with mean [loc] and deviation [scale]. *)
Definition draw (rs : RandomState) (loc scale : float) (i : nat) : float :=
  fadd loc (fmul scale (Fin (gauss rs (cursor rs + i)%nat))).

(** [np.random.normal(loc, scale, size)]: [ValueError] on a negative
    scale, otherwise the next [size] samples. *)
Definition normal (loc scale : float) (size : nat) : Py (list float) :=
  fun rs =>
    if flt scale f0 then (Raise ValueError, rs)
    else (Ok (draw rs loc scale <$> seq 0 size), advance rs size).

(* ===================================================================== *)
(** * pandas Series *)
(* ===================================================================== *)

(** A Series is its rows in positional order: (index label, value). *)
Definition Series : Type := list (Z * float).

(** [s.index] and [s.values]. *)
Definition labels (s : Series) : list Z := s.*1.
Definition values (s : Series) : list float := s.*2.

(** The labels of a [RangeIndex(n)]: 0, 1, ..., n-1. *)
Definition range_index (n : nat) : list Z := Z.of_nat <$> seq 0 n.

(** [pd.Series(data)] for a list or array of values. *)
Definition mkSeries (data : list float) : Series :=
  zip (range_index (length data)) data.

(** [pd.Series(s)] for a Series [s]: the same rows. *)
Definition pd_Series (s : Series) : Series := s.

(** [s.reset_index(drop=True)]. *)
Definition reset_index (s : Series) : Series := mkSeries (values s).

(** [pd.concat(parts, ignore_index=True)] and
    [s.append(t, ignore_index=True)]. *)
Definition concat_ignore_index (parts : list Series) : Series :=
  reset_index (concat parts).

(** [s * x] and [s + x] for a scalar [x]: labels kept. *)
Definition smul (s : Series) (x : float) : Series :=
  (fun row => (row.1, fmul row.2 x)) <$> s.
Definition sadd (s : Series) (x : float) : Series :=
  (fun row => (row.1, fadd row.2 x)) <$> s.

(** [s + a] for an ndarray [a]: positional, labels kept; [ValueError]
    when the lengths differ. *)
Definition sadd_array (s : Series) (a : list float) : result Series :=
  if bool_decide (length s = length a) then
    Ok (zip_with (fun row x => (row.1, fadd row.2 x)) s a)
  else Raise ValueError.

(** A bound of a Python slice over [len] positions: a negative bound
    counts from the end, and every bound is clamped into [0, len]. *)
Definition slice_bound (len : nat) (i : Z) : nat :=
  if i <? 0 then Z.to_nat (Z.max 0 (Z.of_nat len + i))
  else Z.to_nat (Z.min i (Z.of_nat len)).

(** [s.iloc[:i]] and [s.iloc[i:]]. *)
Definition iloc_to (s : Series) (i : Z) : Series :=
  take (slice_bound (length s) i) s.
Definition iloc_from (s : Series) (i : Z) : Series :=
  drop (slice_bound (length s) i) s.

(** Every [k]-th row, the first one after [skip] rows. *)
Fixpoint every {A} (k skip : nat) (l : list A) : list A :=
  match l with
  | [] => []
  | x :: t =>
      match skip with
      | O => x :: every k (k - 1) t
      | S skip' => every k skip' t
      end
  end.

(** [s.iloc[::k]]: a zero step raises, a negative step walks backwards
    from the last row. *)
Definition iloc_step (s : Series) (k : Z) : result Series :=
  match k with
  | Z0 => Raise ValueError
  | Zpos p => Ok (every (Pos.to_nat p) 0 s)
  | Zneg p => Ok (every (Pos.to_nat p) 0 (reverse s))
  end.

(** [s.max()] and [s.min()] skip NaN; with nothing left they are NaN. *)
Definition Qcmax (x y : Qc) : Qc := if decide (x < y)%Qc then y else x.
Definition Qcmin (x y : Qc) : Qc := if decide (y < x)%Qc then y else x.

Definition dropna (s : Series) : list Qc :=
  omap (fun row => match row.2 with Fin q => Some q | NaN => None end) s.

Definition reduce (op : Qc -> Qc -> Qc) (s : Series) : float :=
  match dropna s with
  | [] => NaN
  | q :: qs => Fin (foldl op q qs)
  end.

Definition smax : Series -> float := reduce Qcmax.
Definition smin : Series -> float := reduce Qcmin.

(* ===================================================================== *)
(** * The anomaly classes *)
(* ===================================================================== *)

(** One of the five simple classes together with its keyword arguments:
    what a direct constructor call passes, and what an entry
    [[Anomaly, kwargs]] of a compound pipeline holds. *)
Inductive Stage : Type :=
  | NoisyAnomaly (mu sigma : float)
  | RangeShiftAnomaly (ratio : float)
  | AmplitudeShiftAnomaly (ratio : float)
  | PointAnomaly (ratio mu sigma : float) (count : pynum)
  | FrequencyShiftAnomaly (ratio : float).

(** A constructor call: one of the five simple classes, or
    [CompoundAnomaly(template, *args)] with its entries. *)
Inductive Call : Type :=
  | Simple (kind : Stage)
  | CompoundAnomaly (transformations : list Stage).

(** [NoisyAnomaly._generate] *)
Definition NoisyAnomaly_generate (template : Series) (mu sigma : float)
  : Py Series :=
  let anomaly := template in
  noise ← normal mu sigma (length anomaly);
  lift (sadd_array anomaly noise).

(** [RangeShiftAnomaly._generate] *)
Definition RangeShiftAnomaly_generate (template : Series) (ratio : float)
  : Py Series :=
  let anomaly := template in
  mret (smul anomaly ratio).

(** [AmplitudeShiftAnomaly._generate] *)
Definition AmplitudeShiftAnomaly_generate (template : Series) (ratio : float)
  : Py Series :=
  let _max := smax template in
  let _min := smin template in
  let _shift := fmul (fsub _max _min) ratio in
  let anomaly := template in
  mret (sadd anomaly _shift).

(** The [for i in range(count)] loop of [PointAnomaly._generate], with
    the iterations left to run. *)
Fixpoint PointAnomaly_loop (n : nat) (point : Series) (mu sigma : float)
    (anomaly : Series) : Py Series :=
  match n with
  | O => mret anomaly
  | S n' =>
      noise ← normal mu sigma 2;
      point_anomaly ← lift (sadd_array point noise);
      PointAnomaly_loop n' point mu sigma
        (concat_ignore_index [anomaly; point_anomaly])
  end.

(** [PointAnomaly._generate] *)
Definition PointAnomaly_generate (template : Series) (ratio mu sigma : float)
    (count : pynum) : Py Series :=
  let _max := smax template in
  let _min := smin template in
  let _mid := fmul (fsub _max _min) ratio in
  let _upper := fadd _max _mid in
  let _lower := fsub _min _mid in
  let point := mkSeries [_upper; _lower] in
  let anomaly := mkSeries [] in
  n ← lift (py_range count);
  PointAnomaly_loop n point mu sigma anomaly.

(** [FrequencyShiftAnomaly._generate] *)
Definition FrequencyShiftAnomaly_generate (template : Series) (ratio : float)
  : Py Series :=
  if flt f0 ratio && fle ratio f1 then
    q ← lift (fdiv f1 ratio);
    _ratio ← lift (py_int q);
    sliced ← lift (iloc_step template _ratio);
    mret (reset_index sliced)
  else
    raise NotImplementedError.

(** [Anomaly(template, **kwargs).anomaly] for one pipeline entry: the
    constructor of [BaseAnomaly] stores the template and runs the class's
    [_generate] on it. *)
Definition Stage_anomaly (kind : Stage) (template : Series) : Py Series :=
  match kind with
  | NoisyAnomaly mu sigma => NoisyAnomaly_generate template mu sigma
  | RangeShiftAnomaly ratio => RangeShiftAnomaly_generate template ratio
  | AmplitudeShiftAnomaly ratio => AmplitudeShiftAnomaly_generate template ratio
  | PointAnomaly ratio mu sigma count =>
      PointAnomaly_generate template ratio mu sigma count
  | FrequencyShiftAnomaly ratio => FrequencyShiftAnomaly_generate template ratio
  end.

(** The [for Anomaly, kwargs in self.transformations] loop of
    [CompoundAnomaly._generate]. *)
Fixpoint CompoundAnomaly_loop (transformations : list Stage)
    (anomaly : Series) : Py Series :=
  match transformations with
  | [] => mret anomaly
  | kind :: rest =>
      anomaly' ← Stage_anomaly kind anomaly;
      CompoundAnomaly_loop rest anomaly'
  end.

(** [CompoundAnomaly._generate]: [self.anomaly] is still the copy of the
    template that [BaseAnomaly.__init__] stored. *)
Definition CompoundAnomaly_generate (template : Series)
    (transformations : list Stage) : Py Series :=
  let anomaly := template in
  CompoundAnomaly_loop transformations anomaly.

(** An instance after [BaseAnomaly.__init__]. *)
Record Anomaly : Type := mkAnomaly {
  template : Series;
  anomaly : Series;
  parameters : Call
}.

Definition generate (call : Call) (template : Series) : Py Series :=
  match call with
  | Simple kind => Stage_anomaly kind template
  | CompoundAnomaly transformations =>
      CompoundAnomaly_generate template transformations
  end.

(** [BaseAnomaly.__init__] *)
Definition init (call : Call) (template : Series) : Py Anomaly :=
  a ← generate call template;
  mret (mkAnomaly template a call).

(** [BaseAnomaly.insert] *)
Definition insert (self : Anomaly) (timeseries : Series) (index : option Z)
  : result Series :=
  let anomaly := anomaly self in
  match index with
  | Some index =>
      Ok (concat_ignore_index
            [iloc_to timeseries index; pd_Series anomaly;
             iloc_from timeseries index])
  | None =>
      Ok (concat_ignore_index [timeseries; pd_Series anomaly])
  end.

(* ===================================================================== *)
(** * The classes over an object store *)
(* ===================================================================== *)

(** The same code with the objects it handles: Series objects and
    instances live in a store, a variable holds a reference, every pandas
    operation the module calls returns a new object, and an attribute
    assignment updates the instance's [__dict__] in place.  matplotlib
    calls are left out: they receive objects and return nothing the
    module uses. *)
Module Heap.

Definition loc : Type := positive.

(** What a keyword argument holds. *)
Inductive arg : Type :=
  | AFloat (x : float)
  | ANum (n : pynum).

(** What an attribute holds. *)
Inductive value : Type :=
  | VRef (l : loc)
  | VArg (a : arg)
  | VTuple (args : list Stage)
  | VDict (kwargs : list (string * arg)).

Inductive obj : Type :=
  | OSeries (s : Series)
  | OInstance (dict : gmap string value).

Record World : Type := mkWorld {
  heap : gmap loc obj;
  rng : RandomState
}.

Definition HPy (A : Type) : Type := World -> result A * World.

#[global] Instance HPy_ret : MRet HPy := fun A a w => (Ok a, w).
#[global] Instance HPy_bind : MBind HPy := fun A B k m w =>
  match m w with
  | (Ok a, w') => k a w'
  | (Raise e, w') => (Raise e, w')
  end.

Definition raise {A} (e : PyExc) : HPy A := fun w => (Raise e, w).
Definition lift {A} (r : result A) : HPy A := fun w => (r, w).

(** Code that only uses the generator. *)
Definition random {A} (m : Py A) : HPy A := fun w =>
  let '(r, rs) := m (rng w) in (r, mkWorld (heap w) rs).

(** ** Store primitives *)

Definition alloc (o : obj) : HPy loc := fun w =>
  let l := fresh (dom (heap w)) in
  (Ok l, mkWorld (<[l := o]> (heap w)) (rng w)).

Definition read (l : loc) : HPy Series := fun w =>
  match heap w !! l with
  | Some (OSeries s) => (Ok s, w)
  | _ => (Raise AttributeError, w)
  end.

Definition getattr (self : loc) (name : string) : HPy value := fun w =>
  match heap w !! self with
  | Some (OInstance dict) =>
      match dict !! name with
      | Some v => (Ok v, w)
      | None => (Raise AttributeError, w)
      end
  | _ => (Raise AttributeError, w)
  end.

Definition setattr (self : loc) (name : string) (v : value) : HPy unit :=
  fun w =>
    match heap w !! self with
    | Some (OInstance dict) =>
        (Ok tt, mkWorld (<[self := OInstance (<[name := v]> dict)]> (heap w))
                        (rng w))
    | _ => (Raise AttributeError, w)
    end.

(** [self.__dict__.update] with the keyword arguments. *)
Definition dict_update (self : loc) (kwargs : list (string * arg)) : HPy unit :=
  fun w =>
    match heap w !! self with
    | Some (OInstance dict) =>
        (Ok tt,
         mkWorld (<[self := OInstance
                      (foldl (fun d kv => <[kv.1 := VArg kv.2]> d) dict kwargs)]>
                    (heap w))
                 (rng w))
    | _ => (Raise AttributeError, w)
    end.

Definition get_ref (self : loc) (name : string) : HPy loc :=
  v ← getattr self name;
  match v with VRef l => mret l | _ => raise TypeError end.

Definition get_float (self : loc) (name : string) : HPy float :=
  v ← getattr self name;
  match v with VArg (AFloat x) => mret x | _ => raise TypeError end.

Definition get_num (self : loc) (name : string) : HPy pynum :=
  v ← getattr self name;
  match v with VArg (ANum n) => mret n | _ => raise TypeError end.

Definition get_tuple (self : loc) (name : string) : HPy (list Stage) :=
  v ← getattr self name;
  match v with VTuple args => mret args | _ => raise TypeError end.

(** ** pandas operations: each one returns a new object *)

Definition new_series (s : Series) : HPy loc := alloc (OSeries s).

(** A unary operation on the rows of a Series. *)
Definition op1 (f : Series -> Series) (l : loc) : HPy loc :=
  s ← read l; new_series (f s).

Definition op1r (f : Series -> result Series) (l : loc) : HPy loc :=
  s ← read l; s' ← lift (f s); new_series s'.

Definition copy : loc -> HPy loc := op1 id.
Definition pdSeries : loc -> HPy loc := op1 pd_Series.
Definition len (l : loc) : HPy nat := s ← read l; mret (length s).
Definition max (l : loc) : HPy float := s ← read l; mret (smax s).
Definition min (l : loc) : HPy float := s ← read l; mret (smin s).

Fixpoint read_all (ls : list loc) : HPy (list Series) :=
  match ls with
  | [] => mret []
  | l :: rest => s ← read l; ss ← read_all rest; mret (s :: ss)
  end.

Definition concat (ls : list loc) : HPy loc :=
  parts ← read_all ls; new_series (concat_ignore_index parts).

(** ** The classes *)

Definition kwargs_of (kind : Stage) : list (string * arg) :=
  match kind with
  | NoisyAnomaly mu sigma => [("mu", AFloat mu); ("sigma", AFloat sigma)]
  | RangeShiftAnomaly ratio => [("ratio", AFloat ratio)]
  | AmplitudeShiftAnomaly ratio => [("ratio", AFloat ratio)]
  | PointAnomaly ratio mu sigma count =>
      [("ratio", AFloat ratio); ("mu", AFloat mu); ("sigma", AFloat sigma);
       ("count", ANum count)]
  | FrequencyShiftAnomaly ratio => [("ratio", AFloat ratio)]
  end.

(** [BaseAnomaly.__init__], for the class whose [_generate] is given. *)
Definition BaseAnomaly_init (_generate : loc -> HPy loc) (self template : loc)
    (args : list Stage) (kwargs : list (string * arg)) : HPy unit :=
  t ← pdSeries template;
  t ← copy t;
  _ ← setattr self "template" (VRef t);
  a ← copy template;
  _ ← setattr self "anomaly" (VRef a);
  _ ← setattr self "transformations" (VTuple args);
  _ ← setattr self "parameters"
        (match args with [] => VDict kwargs | _ => VTuple args end);
  _ ← dict_update self kwargs;
  a ← _generate self;
  setattr self "anomaly" (VRef a).

(** A constructor call: a new instance, then [__init__] on it. *)
Definition new (_generate : loc -> HPy loc) (template : loc)
    (args : list Stage) (kwargs : list (string * arg)) : HPy loc :=
  self ← alloc (OInstance ∅);
  _ ← BaseAnomaly_init _generate self template args kwargs;
  mret self.

Definition NoisyAnomaly_generate (self : loc) : HPy loc :=
  t ← get_ref self "template";
  anomaly ← copy t;
  mu ← get_float self "mu";
  sigma ← get_float self "sigma";
  n ← len anomaly;
  noise ← random (normal mu sigma n);
  op1r (fun s => sadd_array s noise) anomaly.

Definition RangeShiftAnomaly_generate (self : loc) : HPy loc :=
  t ← get_ref self "template";
  anomaly ← copy t;
  ratio ← get_float self "ratio";
  op1 (fun s => smul s ratio) anomaly.

Definition AmplitudeShiftAnomaly_generate (self : loc) : HPy loc :=
  t ← get_ref self "template";
  _max ← max t;
  t ← get_ref self "template";
  _min ← min t;
  ratio ← get_float self "ratio";
  let _shift := fmul (fsub _max _min) ratio in
  t ← get_ref self "template";
  anomaly ← copy t;
  op1 (fun s => sadd s _shift) anomaly.

Fixpoint PointAnomaly_loop (n : nat) (self point anomaly : loc) : HPy loc :=
  match n with
  | O => mret anomaly
  | S n' =>
      mu ← get_float self "mu";
      sigma ← get_float self "sigma";
      noise ← random (normal mu sigma 2);
      point_anomaly ← op1r (fun s => sadd_array s noise) point;
      anomaly' ← concat [anomaly; point_anomaly];
      PointAnomaly_loop n' self point anomaly'
  end.

Definition PointAnomaly_generate (self : loc) : HPy loc :=
  t ← get_ref self "template";
  _max ← max t;
  t ← get_ref self "template";
  _min ← min t;
  ratio ← get_float self "ratio";
  let _mid := fmul (fsub _max _min) ratio in
  let _upper := fadd _max _mid in
  let _lower := fsub _min _mid in
  point ← new_series (mkSeries [_upper; _lower]);
  anomaly ← new_series (mkSeries []);
  count ← get_num self "count";
  n ← lift (py_range count);
  PointAnomaly_loop n self point anomaly.

Definition FrequencyShiftAnomaly_generate (self : loc) : HPy loc :=
  ratio ← get_float self "ratio";
  if flt f0 ratio && fle ratio f1 then
    q ← lift (fdiv f1 ratio);
    _ratio ← lift (py_int q);
    t ← get_ref self "template";
    sliced ← op1r (fun s => iloc_step s _ratio) t;
    op1 reset_index sliced
  else
    raise NotImplementedError.

Definition Stage_generate (kind : Stage) : loc -> HPy loc :=
  match kind with
  | NoisyAnomaly _ _ => NoisyAnomaly_generate
  | RangeShiftAnomaly _ => RangeShiftAnomaly_generate
  | AmplitudeShiftAnomaly _ => AmplitudeShiftAnomaly_generate
  | PointAnomaly _ _ _ _ => PointAnomaly_generate
  | FrequencyShiftAnomaly _ => FrequencyShiftAnomaly_generate
  end.

(** [Anomaly(template, **kwargs)] for a simple class. *)
Definition Stage_init (kind : Stage) (template : loc) : HPy loc :=
  new (Stage_generate kind) template [] (kwargs_of kind).

Fixpoint CompoundAnomaly_loop (transformations : list Stage) (anomaly : loc)
  : HPy loc :=
  match transformations with
  | [] => mret anomaly
  | kind :: rest =>
      inst ← Stage_init kind anomaly;
      anomaly' ← get_ref inst "anomaly";
      CompoundAnomaly_loop rest anomaly'
  end.

Definition CompoundAnomaly_generate (self : loc) : HPy loc :=
  a ← get_ref self "anomaly";
  anomaly ← copy a;
  transformations ← get_tuple self "transformations";
  CompoundAnomaly_loop transformations anomaly.

(** A constructor call. *)
Definition init (call : Call) (template : loc) : HPy loc :=
  match call with
  | Simple kind => Stage_init kind template
  | CompoundAnomaly transformations =>
      new CompoundAnomaly_generate template transformations []
  end.

(** [BaseAnomaly.insert] *)
Definition insert (self timeseries : loc) (index : option Z) : HPy loc :=
  anomaly ← get_ref self "anomaly";
  match index with
  | Some index =>
      head ← op1 (fun s => iloc_to s index) timeseries;
      a ← pdSeries anomaly;
      tail ← op1 (fun s => iloc_from s index) timeseries;
      concat [head; a; tail]
  | None =>
      a ← pdSeries anomaly;
      concat [timeseries; a]
  end.

(** [BaseAnomaly.plot] and [PointAnomaly.plot], up to the matplotlib
    calls: the series it builds and hands over. *)
Definition plot (self : loc) : HPy (loc * loc) :=
  t ← get_ref self "template";
  n ← len t;
  t ← get_ref self "template";
  a ← get_ref self "anomaly";
  combined ← concat [t; a];
  _ ← getattr self "parameters";
  before ← op1 (take n) combined;
  after ← op1 (drop n) combined;
  mret (before, after).

(** [__str__] and [__repr__]: the attribute they print. *)
Definition str (call : Call) (self : loc) : HPy value :=
  match call with
  | Simple _ => getattr self "parameters"
  | CompoundAnomaly _ => getattr self "transformations"
  end.

(** The [__dict__] of an instance before [__init__] adds the keyword
    arguments, and when it calls [_generate]: [lt] and [la] are the
    copies of the template stored as [template] and [anomaly]. *)
Definition base_dict (lt la : loc) (args : list Stage)
    (kwargs : list (string * arg)) : gmap string value :=
  <["parameters" := match args with [] => VDict kwargs | _ => VTuple args end]>
    (<["transformations" := VTuple args]>
       (<["anomaly" := VRef la]> (<["template" := VRef lt]> ∅))).

Definition init_dict (lt la : loc) (args : list Stage)
    (kwargs : list (string * arg)) : gmap string value :=
  foldl (fun d kv => <[kv.1 := VArg kv.2]> d) (base_dict lt la args kwargs) kwargs.

(** ** Properties of computations over the store *)

(** A computation that only allocates: every object of the store it
    starts from is still there, unchanged, in the store it ends with
    (whether it returns or raises). *)
Definition mono {A} (m : HPy A) : Prop :=
  forall w, heap w ⊆ heap (m w).2.

(** A computation that leaves the objects of a given store [h0]
    unchanged. *)
Definition keeps {A} (h0 : gmap loc obj) (m : HPy A) : Prop :=
  forall w, h0 ⊆ heap w -> h0 ⊆ heap (m w).2.

(** A computation whose result, when it returns, is a reference that
    was not in the store it started from. *)
Definition fresh_result (m : HPy loc) : Prop :=
  forall w r, (m w).1 = Ok r -> heap w !! r = None.

(** A computation that can only return [a]. *)
Definition returns {A} (a : A) (m : HPy A) : Prop :=
  forall w r, (m w).1 = Ok r -> r = a.

(** What a computation establishes from a world: a condition on its
    outcome and on the world it ends in. *)
Definition wp {A} (m : HPy A) (w : World)
    (post : result A -> World -> Prop) : Prop :=
  post (m w).1 (m w).2.

(** From world [w], the computation [m] over the store does what the
    computation [v] over Series values does from the generator of [w]:
    the same draws, the same exception, or a reference to a Series object
    holding the rows that [v] returns. *)
Definition refines (v : Py Series) (m : HPy loc) (w : World) : Prop :=
  match v (rng w) with
  | (Ok out, rs') =>
      exists (a : loc) (w' : World),
        m w = (Ok a, w') /\ rng w' = rs' /\ heap w' !! a = Some (OSeries out)
  | (Raise e, rs') =>
      exists w' : World, m w = (Raise e, w') /\ rng w' = rs'
  end.

(** What a constructor call establishes, given the rows [T] of its
    template and the computation [v] over Series values it stands for. *)
Definition constructed (v : Py Series) (T : Series) (w : World)
    (r : result loc) (w' : World) : Prop :=
  match v (rng w) with
  | (Ok out, rs') =>
      exists self d lt la,
        r = Ok self /\ rng w' = rs'
        /\ heap w' !! self = Some (OInstance d)
        /\ d !! "template" = Some (VRef lt)
        /\ heap w' !! lt = Some (OSeries T)
        /\ d !! "anomaly" = Some (VRef la)
        /\ heap w' !! la = Some (OSeries out)
  | (Raise e, rs') => r = Raise e /\ rng w' = rs'
  end.

End Heap.

(* ===================================================================== *)
(** * Display and plotting *)
(* ===================================================================== *)

(** [Anomaly.__name__] for the class of a pipeline entry. *)
Definition class_name (kind : Stage) : string :=
  match kind with
  | NoisyAnomaly _ _ => "NoisyAnomaly"
  | RangeShiftAnomaly _ => "RangeShiftAnomaly"
  | AmplitudeShiftAnomaly _ => "AmplitudeShiftAnomaly"
  | PointAnomaly _ _ _ _ => "PointAnomaly"
  | FrequencyShiftAnomaly _ => "FrequencyShiftAnomaly"
  end.

(** [repr(s)] of a string without quotes or escapes, as a class name is. *)
Definition py_repr (s : string) : string := "'" +:+ s +:+ "'".

(** [sep.join(l)] *)
Fixpoint py_join (sep : string) (l : list string) : string :=
  match l with
  | [] => EmptyString
  | [s] => s
  | s :: rest => s +:+ sep +:+ py_join sep rest
  end.

(** [str(l)] of a list of strings. *)
Definition py_str_list (l : list string) : string :=
  "[" +:+ py_join ", " (py_repr <$> l) +:+ "]".

(** [CompoundAnomaly.__str__], which [__repr__] returns too. *)
Definition CompoundAnomaly_str (transformations : list Stage) : string :=
  let print_string := py_str_list (class_name <$> transformations) in
  "CompoundAnomaly" +:+ " - " +:+ print_string.

(** [BaseAnomaly.plot] and [PointAnomaly.plot], up to the matplotlib
    calls: the two series handed to [plt.plot], [combined[:n]] and
    [combined[n:]]. *)
Definition plot (self : Anomaly) : Series * Series :=
  let n := length (template self) in
  let combined := concat_ignore_index [template self; anomaly self] in
  (take n combined, drop n combined).

(** The classes whose [_generate] calls [np.random.normal]. *)
Definition draws_noise (kind : Stage) : bool :=
  match kind with
  | NoisyAnomaly _ _ | PointAnomaly _ _ _ _ => true
  | RangeShiftAnomaly _ | AmplitudeShiftAnomaly _ | FrequencyShiftAnomaly _ => false
  end.

(* ===================================================================== *)
(** * Ownership over the object store *)
(* ===================================================================== *)

(** A computation whose result, when it returns, is [x] or a reference
    that was not in the store it started from. *)
Definition fresh_or (x : Heap.loc) (m : Heap.HPy Heap.loc) : Prop :=
  forall w r, (m w).1 = Ok r -> r = x \/ Heap.heap w !! r = None.

(** In the store of [w'], [self] is an instance whose [template]
    attribute refers to a Series object and whose [anomaly] attribute
    refers to another object, and neither these two objects nor the
    instance existed in the store of [w]. *)
Definition owns_new_objects (w : Heap.World) (self : Heap.loc)
    (w' : Heap.World) : Prop :=
  exists (d : gmap string Heap.value) (lt la : Heap.loc) (st : Series),
    Heap.heap w' !! self = Some (Heap.OInstance d)
    /\ d !! "template" = Some (Heap.VRef lt)
    /\ d !! "anomaly" = Some (Heap.VRef la)
    /\ Heap.heap w' !! lt = Some (Heap.OSeries st)
    /\ lt <> la
    /\ Heap.heap w !! self = None
    /\ Heap.heap w !! lt = None
    /\ Heap.heap w !! la = None.

(* ===================================================================== *)
(** * Reference descriptions *)
(* ===================================================================== *)

(** The pipeline as the specification words it: a left-to-right fold of
    the stages, each stage bound to the output of the stages before it,
    starting from the template. *)
Definition pipeline (stages : list Stage) (T : Series) : Py Series :=
  foldl (fun current kind => current ≫= Stage_anomaly kind) (mret T) stages.

(** The alternating points as the specification words them: [n] pairs
    in order, pair [k] being the upper bound plus draw number [2k] and
    the lower bound plus draw number [2k+1] counted from [rs]. *)
Definition pairs (upper lower mu sigma : float) (rs : RandomState) (n : nat)
  : list float :=
  concat ((fun k => [fadd upper (draw rs mu sigma (2 * k));
                     fadd lower (draw rs mu sigma (2 * k + 1))])
          <$> seq 0 n).

(* ===================================================================== *)
(** * Sample data *)
(* ===================================================================== *)

Definition of_Z (z : Z) : float := Fin (Qc_of_Z z).

(** A sample template: 10, 11, ..., 20. *)
Definition T_example : Series :=
  mkSeries (of_Z <$> [10; 11; 12; 13; 14; 15; 16; 17; 18; 19; 20]).

(** A generator whose draws are 0, 1, 2, ... *)
Definition rs_example : RandomState :=
  mkRandomState (fun i => Qc_of_Z (Z.of_nat i)) 0.

(** A store that holds [T_example] at reference 1 and nothing else. *)
Definition w_example : Heap.World :=
  Heap.mkWorld {[ 1%positive := Heap.OSeries T_example ]} rs_example.

(** [RangeShiftAnomaly(T_example, ratio=0.5)] once constructed. *)
Definition self_example : Anomaly :=
  mkAnomaly T_example (smul T_example (Fin (Q2Qc (1 # 2))))
    (Simple (RangeShiftAnomaly (Fin (Q2Qc (1 # 2))))).

(* ===================================================================== *)
(** * Basic facts about the Series primitives *)
(* ===================================================================== *)

Section SeriesFacts.
Implicit Types (s t : Series) (data : list float).

Lemma length_range_index n : length (range_index n) = n.
Proof. unfold range_index. by rewrite length_fmap, length_seq. Qed.

Lemma values_mkSeries data : values (mkSeries data) = data.
Proof.
  unfold values, mkSeries. apply snd_zip. by rewrite length_range_index.
Qed.

Lemma labels_mkSeries data :
  labels (mkSeries data) = range_index (length data).
Proof.
  unfold labels, mkSeries. apply fst_zip. by rewrite length_range_index.
Qed.

Lemma length_mkSeries data : length (mkSeries data) = length data.
Proof. by rewrite <-(values_mkSeries data) at 2; unfold values; rewrite length_fmap. Qed.

Lemma length_values s : length (values s) = length s.
Proof. apply length_fmap. Qed.

Lemma values_reset_index s : values (reset_index s) = values s.
Proof. apply values_mkSeries. Qed.

Lemma length_reset_index s : length (reset_index s) = length s.
Proof. unfold reset_index. by rewrite length_mkSeries, length_values. Qed.

Lemma labels_reset_index s :
  labels (reset_index s) = range_index (length s).
Proof. unfold reset_index. by rewrite labels_mkSeries, length_values. Qed.

(** A Series is its labels zipped with its values. *)
Lemma zip_labels_values s : zip (labels s) (values s) = s.
Proof. unfold labels, values. apply zip_fst_snd. Qed.

(** Resetting the index of a Series that has the default index is the
    identity. *)
Lemma reset_index_default s :
  labels s = range_index (length s) -> reset_index s = s.
Proof.
  intros H. unfold reset_index, mkSeries.
  rewrite length_values, <-H. apply zip_labels_values.
Qed.

Lemma values_concat_ignore_index parts :
  values (concat_ignore_index parts) = concat (values <$> parts).
Proof.
  unfold concat_ignore_index. rewrite values_reset_index.
  unfold values. induction parts as [|p ps IH]; simpl; [done|].
  by rewrite fmap_app, IH.
Qed.

Lemma values_smul s x : values (smul s x) = (fun v => fmul v x) <$> values s.
Proof. unfold values, smul. by rewrite <-!list_fmap_compose. Qed.

Lemma labels_smul s x : labels (smul s x) = labels s.
Proof. unfold labels, smul. by rewrite <-list_fmap_compose. Qed.

Lemma values_sadd s x : values (sadd s x) = (fun v => fadd v x) <$> values s.
Proof. unfold values, sadd. by rewrite <-!list_fmap_compose. Qed.

Lemma labels_sadd s x : labels (sadd s x) = labels s.
Proof. unfold labels, sadd. by rewrite <-list_fmap_compose. Qed.
End SeriesFacts.

(** The constructor succeeds exactly when [_generate] does, and stores its
    result. *)
Lemma init_generate call T rs :
  init call T rs =
    match generate call T rs with
    | (Ok a, rs') => (Ok (mkAnomaly T a call), rs')
    | (Raise e, rs') => (Raise e, rs')
    end.
Proof.
  unfold init, mbind, Py_bind, mret, Py_ret.
  by destruct (generate call T rs) as [[a|e] rs'].
Qed.

(* ===================================================================== *)
(** * RangeShiftAnomaly *)
(* ===================================================================== *)

(** C9. For every template [T] and every ratio [r] (negative ones and NaN
    included), [RangeShiftAnomaly(T, r)] is constructed without error and
    without drawing random numbers; its anomaly has the length and the
    labels of [T], and at every position [i] its value is [T[i] * r]. *)
Theorem C9_RangeShiftAnomaly_scales (T : Series) (r : float) (rs : RandomState) :
  exists out : Series,
    init (Simple (RangeShiftAnomaly r)) T rs
      = (Ok (mkAnomaly T out (Simple (RangeShiftAnomaly r))), rs)
    /\ length out = length T
    /\ labels out = labels T
    /\ forall i : nat,
         values out !! i = (fun x => fmul x r) <$> (values T !! i).
Proof.
  exists (smul T r). split; [by rewrite init_generate|].
  split; [unfold smul; apply length_fmap|].
  split; [apply labels_smul|].
  intros i. rewrite values_smul. apply list_lookup_fmap.
Qed.

(* ===================================================================== *)
(** * CompoundAnomaly *)
(* ===================================================================== *)

Section MonadFacts.
Context {A B C : Type}.

Lemma bind_ret_l (a : A) (k : A -> Py B) rs : (mret a ≫= k) rs = k a rs.
Proof. done. Qed.

Lemma bind_assoc (m : Py A) (k : A -> Py B) (h : B -> Py C) rs :
  ((m ≫= k) ≫= h) rs = (m ≫= (fun a => k a ≫= h)) rs.
Proof.
  unfold mbind, Py_bind. by destruct (m rs) as [[a|e] rs'].
Qed.

(** Binding pointwise-equal continuations. *)
Lemma bind_ext (m : Py A) (k k' : A -> Py B) rs :
  (forall a rs', k a rs' = k' a rs') -> (m ≫= k) rs = (m ≫= k') rs.
Proof.
  intros H. unfold mbind, Py_bind. destruct (m rs) as [[a|e] rs']; auto.
Qed.

(** A bind only looks at what its first computation does from [rs]. *)
Lemma bind_ext_l (m m' : Py A) (k : A -> Py B) rs :
  m rs = m' rs -> (m ≫= k) rs = (m' ≫= k) rs.
Proof. intros H. unfold mbind, Py_bind. by rewrite H. Qed.
End MonadFacts.

(** The loop, entered with the output of any computation [m], is the fold
    of the remaining stages over [m]. *)
Lemma CompoundAnomaly_loop_foldl (stages : list Stage) :
  forall (m : Py Series) rs,
    (m ≫= CompoundAnomaly_loop stages) rs
      = foldl (fun current kind => current ≫= Stage_anomaly kind) m stages rs.
Proof.
  induction stages as [|kind rest IH]; intros m rs; simpl.
  - unfold mbind, Py_bind, mret, Py_ret. by destruct (m rs) as [[a|e] rs'].
  - rewrite <-IH. symmetry. apply bind_assoc.
Qed.

(** C3. [CompoundAnomaly(T, *stages)] generates the left-to-right fold of
    its stages from [T]: each stage is run on the output of the previous
    one.  With no stage the anomaly is [T]; with two stages [A], [B] it is
    [B] run on the anomaly of [A] run on [T]. *)
Theorem C3_CompoundAnomaly_is_fold (T : Series) (stages : list Stage)
    (A B : Stage) (rs : RandomState) :
  generate (CompoundAnomaly stages) T rs = pipeline stages T rs
  /\ (forall kind : Stage,
        generate (CompoundAnomaly (stages ++ [kind])) T rs
          = (generate (CompoundAnomaly stages) T ≫= Stage_anomaly kind) rs)
  /\ init (CompoundAnomaly []) T rs
       = (Ok (mkAnomaly T T (CompoundAnomaly [])), rs)
  /\ generate (CompoundAnomaly [A; B]) T rs
       = (Stage_anomaly A T ≫= Stage_anomaly B) rs.
Proof.
  assert (Hfold : forall l, generate (CompoundAnomaly l) T rs = pipeline l T rs).
  { intros l. unfold pipeline. rewrite <-CompoundAnomaly_loop_foldl. done. }
  split; [apply Hfold|]. split; [|split].
  - intros kind. rewrite Hfold. unfold pipeline. rewrite foldl_app. simpl.
    apply bind_ext_l. symmetry. apply Hfold.
  - by rewrite init_generate.
  - simpl. unfold CompoundAnomaly_generate. simpl.
    apply bind_ext. intros a rs'.
    unfold mbind, Py_bind, mret, Py_ret.
    by destruct (Stage_anomaly B a rs') as [[b|e] rs''].
Qed.

(* ===================================================================== *)
(** * insert *)
(* ===================================================================== *)

Section InsertFacts.
Implicit Types (s h : Series) (i : Z).

Lemma slice_bound_in_range (len : nat) i :
  0 <= i <= Z.of_nat len -> slice_bound len i = Z.to_nat i.
Proof.
  intros H. unfold slice_bound.
  destruct (Z.ltb_spec i 0); [lia|]. f_equal. lia.
Qed.

Lemma slice_bound_above (len : nat) i :
  Z.of_nat len < i -> slice_bound len i = len.
Proof.
  intros H. unfold slice_bound. destruct (Z.ltb_spec i 0); lia.
Qed.

Lemma slice_bound_le (len : nat) i : (slice_bound len i <= len)%nat.
Proof. unfold slice_bound. destruct (Z.ltb_spec i 0); lia. Qed.

Lemma values_iloc_to s i :
  values (iloc_to s i) = take (slice_bound (length s) i) (values s).
Proof. unfold values, iloc_to. apply fmap_take. Qed.

Lemma values_iloc_from s i :
  values (iloc_from s i) = drop (slice_bound (length s) i) (values s).
Proof. unfold values, iloc_from. apply fmap_drop. Qed.

(** What [insert] returns with an index, whatever the index is: the
    host is split at the slice bound of the index and the anomaly goes
    in between, under a fresh default index. *)
Lemma insert_Some (self : Anomaly) h i :
  exists out : Series,
    insert self h (Some i) = Ok out
    /\ values out = take (slice_bound (length h) i) (values h)
                    ++ values (anomaly self)
                    ++ drop (slice_bound (length h) i) (values h)
    /\ length out = (length h + length (anomaly self))%nat
    /\ labels out = range_index (length out).
Proof.
  eexists. split; [reflexivity|].
  assert (Hv : values (concat_ignore_index
                 [iloc_to h i; pd_Series (anomaly self); iloc_from h i])
               = take (slice_bound (length h) i) (values h)
                 ++ values (anomaly self)
                 ++ drop (slice_bound (length h) i) (values h)).
  { rewrite values_concat_ignore_index. simpl.
    by rewrite values_iloc_to, values_iloc_from, app_nil_r. }
  split; [exact Hv|]. split.
  - rewrite <-length_values, Hv, !length_app, length_take, length_drop.
    rewrite !length_values. pose proof (slice_bound_le (length h) i). lia.
  - unfold concat_ignore_index. by rewrite labels_reset_index, length_reset_index.
Qed.

Lemma insert_None (self : Anomaly) h :
  exists out : Series,
    insert self h None = Ok out
    /\ values out = values h ++ values (anomaly self)
    /\ length out = (length h + length (anomaly self))%nat
    /\ labels out = range_index (length out).
Proof.
  eexists. split; [reflexivity|].
  assert (Hv : values (concat_ignore_index [h; pd_Series (anomaly self)])
               = values h ++ values (anomaly self)).
  { rewrite values_concat_ignore_index. simpl. by rewrite app_nil_r. }
  split; [exact Hv|]. split.
  - by rewrite <-length_values, Hv, length_app, !length_values.
  - unfold concat_ignore_index. by rewrite labels_reset_index, length_reset_index.
Qed.
End InsertFacts.

(** C4. With [0 <= i <= len(h)], [insert(h, index=i)] returns
    [h[0:i] ++ a ++ h[i:]] for the instance's anomaly [a]: its length is
    [len(h) + len(a)], its first [i] values are those of [h], the next
    [len(a)] are [a], the rest is [h[i:]] (nothing of the host is
    overwritten).  With [index=None] it returns [h ++ a].  Both results
    carry the default index 0, 1, ..., n-1. *)
Theorem C4_insert_splices (self : Anomaly) (h : Series) (i : Z) :
  0 <= i <= Z.of_nat (length h) ->
  exists out out' : Series,
    insert self h (Some i) = Ok out
    /\ values out = take (Z.to_nat i) (values h) ++ values (anomaly self)
                    ++ drop (Z.to_nat i) (values h)
    /\ length out = (length h + length (anomaly self))%nat
    /\ take (Z.to_nat i) (values out) = take (Z.to_nat i) (values h)
    /\ take (length (anomaly self)) (drop (Z.to_nat i) (values out))
         = values (anomaly self)
    /\ drop (Z.to_nat i + length (anomaly self)) (values out)
         = drop (Z.to_nat i) (values h)
    /\ labels out = range_index (length out)
    /\ insert self h None = Ok out'
    /\ values out' = values h ++ values (anomaly self)
    /\ length out' = (length h + length (anomaly self))%nat
    /\ labels out' = range_index (length out').
Proof.
  intros Hi.
  destruct (insert_Some self h i) as (out & Hout & Hv & Hlen & Hlab).
  destruct (insert_None self h) as (out' & Hout' & Hv' & Hlen' & Hlab').
  rewrite slice_bound_in_range in Hv by done.
  exists out, out'.
  assert (Hn : length (take (Z.to_nat i) (values h)) = Z.to_nat i).
  { rewrite length_take, length_values. lia. }
  repeat split; try done.
  - rewrite Hv, take_app_length'; done.
  - rewrite Hv, drop_app_length' by done.
    by rewrite take_app_length' by (by rewrite length_values).
  - rewrite Hv, <-drop_drop, drop_app_length' by done.
    by rewrite drop_app_length' by (by rewrite length_values).
Qed.

(** C5 as the code has it.  An index outside [0, len(h)] does not make
    [insert] fail: the two slices clamp it. An index above [len(h)]
    appends the anomaly; a negative index counts from the end of the host
    (and stops at its start). *)
Theorem C5_insert_out_of_range_clamps (self : Anomaly) (h : Series) (i : Z) :
  i < 0 \/ Z.of_nat (length h) < i ->
  exists out : Series,
    insert self h (Some i) = Ok out
    /\ values out =
         (if i <? 0 then
            let j := Z.to_nat (Z.max 0 (Z.of_nat (length h) + i)) in
            take j (values h) ++ values (anomaly self) ++ drop j (values h)
          else values h ++ values (anomaly self))
    /\ length out = (length h + length (anomaly self))%nat
    /\ labels out = range_index (length out).
Proof.
  intros Hi.
  destruct (insert_Some self h i) as (out & Hout & Hv & Hlen & Hlab).
  exists out. repeat split; try done.
  rewrite Hv. unfold slice_bound. destruct (Z.ltb_spec i 0) as [Hneg|Hpos]; [done|].
  replace (Z.to_nat (Z.min i (Z.of_nat (length h)))) with (length (values h))
    by (rewrite length_values; lia).
  by rewrite firstn_all, drop_all, app_nil_r.
Qed.

(* ===================================================================== *)
(** * FrequencyShiftAnomaly *)
(* ===================================================================== *)

Section EveryFacts.
Context {A : Type}.
Implicit Types (l : list A) (k skip i : nat).

(** Position [i] of the stepped list is position [skip + i * k] of the
    list. *)
Lemma every_lookup k l : (1 <= k)%nat ->
  forall skip i, every k skip l !! i = l !! (skip + i * k)%nat.
Proof.
  intros Hk. induction l as [|x t IH]; intros skip i; simpl; [done|].
  destruct skip as [|skip'].
  - destruct i as [|i']; simpl; [done|].
    rewrite IH. replace (k + i' * k)%nat with (S (k - 1 + i' * k)) by lia.
    done.
  - by rewrite IH.
Qed.

Lemma every_length k l : (1 <= k)%nat ->
  forall skip, length (every k skip l) = ((length l - skip + k - 1) / k)%nat.
Proof.
  intros Hk. induction l as [|x t IH]; intros skip; simpl.
  - symmetry. apply Nat.div_small. lia.
  - destruct skip as [|skip']; simpl; [|by rewrite IH].
    rewrite IH.
    replace (length t + k - 0)%nat with (length t + 1 * k)%nat by lia.
    rewrite Nat.div_add by lia.
    destruct (decide (k - 1 <= length t)%nat) as [Hle|Hgt].
    + replace (length t - (k - 1) + k - 1)%nat with (length t) by lia. lia.
    + replace (length t - (k - 1) + k - 1)%nat with (k - 1)%nat by lia.
      rewrite !Nat.div_small by lia. done.
Qed.

Lemma every_1 l : every 1 0 l = l.
Proof. induction l as [|x t IH]; simpl; [done|]. by rewrite IH. Qed.

Lemma every_fmap {B} (f : A -> B) k l :
  forall skip, every k skip (f <$> l) = f <$> every k skip l.
Proof.
  induction l as [|x t IH]; intros skip; simpl; [done|].
  destruct skip; simpl; by rewrite IH.
Qed.
End EveryFacts.

Section RatioFacts.
Local Open Scope Qc_scope.
Implicit Types r : Qc.

Lemma Qcinv_ge_1 r : 0 < r -> r <= 1 -> 1 <= / r.
Proof.
  intros Hpos Hle. apply Qcmult_lt_0_le_reg_r with (z := r); [done|].
  rewrite Qcmult_inv_l by (intros ->; by apply (Qclt_not_eq 0 0)).
  by rewrite Qcmult_1_l.
Qed.

(** The stride [int(1/ratio)] is [floor(1/ratio)], and is at least 1. *)
Lemma stride_ge_1 r : 0 < r -> r <= 1 -> (1 <= Qfloor (/ r)%Qc)%Z.
Proof.
  intros Hpos Hle. change 1%Z with (Qfloor 1).
  apply Qfloor_resp_le. exact (Qcinv_ge_1 r Hpos Hle).
Qed.

Lemma Qtrunc_inv r : 0 < r -> r <= 1 -> Qtrunc (/ r)%Qc = Qfloor (/ r)%Qc.
Proof.
  intros Hpos Hle. unfold Qtrunc.
  assert (H : Qle_bool 0 (/ r)%Qc = true); [|by rewrite H].
  apply Qle_bool_iff. apply Qle_trans with 1%Q; [done|].
  exact (Qcinv_ge_1 r Hpos Hle).
Qed.

Lemma guard_true r : 0 < r -> r <= 1 -> flt f0 (Fin r) && fle (Fin r) f1 = true.
Proof.
  intros Hpos Hle. unfold flt, fle, f0, f1.
  by rewrite !bool_decide_eq_true_2.
Qed.

Lemma guard_false r : r <= 0 \/ 1 < r -> flt f0 (Fin r) && fle (Fin r) f1 = false.
Proof.
  intros [H|H]; unfold flt, fle, f0, f1.
  - rewrite (bool_decide_eq_false_2 (0 < r)); [done|]. by apply Qcle_not_lt.
  - rewrite (bool_decide_eq_false_2 (r <= 1)); [|by apply Qclt_not_le].
    apply andb_false_r.
Qed.
End RatioFacts.

(** Inside the accepted range the method runs to the end: the division,
    the conversion to [int] and the slice all succeed. *)
Lemma FrequencyShiftAnomaly_in_range (T : Series) (r : Qc) rs :
  (0 < r)%Qc -> (r <= 1)%Qc ->
  FrequencyShiftAnomaly_generate T (Fin r) rs
    = (Ok (reset_index (every (Z.to_nat (Qfloor (/ r)%Qc)) 0 T)), rs).
Proof.
  intros Hpos Hle. unfold FrequencyShiftAnomaly_generate.
  rewrite guard_true by done.
  assert (Hne : r <> Q2Qc 0) by (intros ->; by apply (Qclt_not_eq 0 0)%Qc).
  unfold fdiv, f1. rewrite bool_decide_eq_false_2 by done.
  unfold Qcdiv. rewrite Qcmult_1_l.
  unfold mbind, Py_bind, lift, mret, Py_ret, py_int. cbv beta iota.
  rewrite Qtrunc_inv by done.
  pose proof (stride_ge_1 r Hpos Hle) as Hk.
  destruct (Qfloor (/ r)%Qc) as [|p|p] eqn:E; [lia| |lia].
  done.
Qed.

Lemma FrequencyShiftAnomaly_out_of_range (T : Series) (ratio : float) rs :
  flt f0 ratio && fle ratio f1 = false ->
  FrequencyShiftAnomaly_generate T ratio rs = (Raise NotImplementedError, rs).
Proof. intros H. unfold FrequencyShiftAnomaly_generate. by rewrite H. Qed.


Section Ceiling.
Lemma Zceil_div (n k : Z) : 0 < k -> - ((- n) / k) = (n + k - 1) / k.
Proof.
  intros Hk. apply Z.div_unique with (r := (k - 1) - (- n) mod k).
  - left. pose proof (Z.mod_pos_bound (- n) k Hk). lia.
  - pose proof (Z.div_mod (- n) k). lia.
Qed.

(** The ceiling of the rational quotient, by integer division. *)
Lemma Qceiling_div (n k : Z) : 0 < k ->
  Qceiling (inject_Z n / inject_Z k) = (n + k - 1) / k.
Proof.
  intros Hk. unfold Qceiling.
  assert (E : (- (inject_Z n / inject_Z k) == inject_Z (- n) / inject_Z k)%Q).
  { rewrite inject_Z_opp. field. intros H.
    apply (inject_Z_injective k 0) in H. lia. }
  rewrite E, <-Zdiv_Qdiv. by apply Zceil_div.
Qed.

Lemma length_every_ceiling {A} (l : list A) (k : Z) : 1 <= k ->
  Z.of_nat (length (every (Z.to_nat k) 0 l))
    = Qceiling (inject_Z (Z.of_nat (length l)) / inject_Z k).
Proof.
  intros Hk. rewrite every_length by lia.
  rewrite Qceiling_div by lia. rewrite Nat2Z.inj_div. f_equal; lia.
Qed.
End Ceiling.


(* ===================================================================== *)
(** * max and min *)
(* ===================================================================== *)

Section Reduce.
Local Open Scope Qc_scope.

Lemma Qcmax_ub_l x y : x <= Qcmax x y.
Proof.
  unfold Qcmax. destruct (decide (x < y)); [by apply Qclt_le_weak|done].
Qed.

Lemma Qcmax_ub_r x y : y <= Qcmax x y.
Proof.
  unfold Qcmax. destruct (decide (x < y)) as [|H]; [done|].
  by apply Qcnot_lt_le.
Qed.

Lemma Qcmax_cases x y : Qcmax x y = x \/ Qcmax x y = y.
Proof. unfold Qcmax. destruct (decide (x < y)); auto. Qed.

Lemma foldl_Qcmax_ub qs : forall q x,
  x ∈ q :: qs -> x <= foldl Qcmax q qs.
Proof.
  induction qs as [|y qs IH]; intros q x Hx; simpl.
  - apply list_elem_of_singleton in Hx as ->. done.
  - apply elem_of_cons in Hx as [->|Hx].
    + apply Qcle_trans with (Qcmax q y); [apply Qcmax_ub_l|].
      apply IH. left.
    + apply elem_of_cons in Hx as [->|Hx].
      * apply Qcle_trans with (Qcmax q y); [apply Qcmax_ub_r|].
        apply IH. left.
      * apply IH. by right.
Qed.

Lemma foldl_Qcmax_elem qs : forall q, foldl Qcmax q qs ∈ q :: qs.
Proof.
  induction qs as [|y qs IH]; intros q; simpl; [left|].
  specialize (IH (Qcmax q y)).
  apply elem_of_cons in IH as [->|IH]; [|by do 2 right].
  destruct (Qcmax_cases q y) as [->| ->]; [left|right; left].
Qed.

(** [s.max()] of a Series with a value that is not NaN is the largest
    such value. *)
Lemma smax_spec (s : Series) (q0 : Qc) : q0 ∈ dropna s ->
  exists m : Qc, smax s = Fin m /\ m ∈ dropna s
                 /\ forall x, x ∈ dropna s -> x <= m.
Proof.
  intros Hq. unfold smax, reduce.
  destruct (dropna s) as [|q qs]; [by apply elem_of_nil in Hq|].
  eexists. split; [done|]. split; [apply foldl_Qcmax_elem|].
  intros x Hx. by apply foldl_Qcmax_ub.
Qed.

Lemma smax_nil : smax [] = NaN.
Proof. done. Qed.

Lemma smin_nil : smin [] = NaN.
Proof. done. Qed.
End Reduce.

Section ReduceMin.
Local Open Scope Qc_scope.

Lemma Qcmin_lb_l x y : Qcmin x y <= x.
Proof.
  unfold Qcmin. destruct (decide (y < x)); [by apply Qclt_le_weak|done].
Qed.

Lemma Qcmin_lb_r x y : Qcmin x y <= y.
Proof.
  unfold Qcmin. destruct (decide (y < x)) as [|H]; [done|].
  by apply Qcnot_lt_le.
Qed.

Lemma Qcmin_cases x y : Qcmin x y = x \/ Qcmin x y = y.
Proof. unfold Qcmin. destruct (decide (y < x)); auto. Qed.

Lemma foldl_Qcmin_lb qs : forall q x,
  x ∈ q :: qs -> foldl Qcmin q qs <= x.
Proof.
  induction qs as [|y qs IH]; intros q x Hx; simpl.
  - apply list_elem_of_singleton in Hx as ->. done.
  - apply elem_of_cons in Hx as [->|Hx].
    + apply Qcle_trans with (Qcmin q y); [|apply Qcmin_lb_l].
      apply IH. left.
    + apply elem_of_cons in Hx as [->|Hx].
      * apply Qcle_trans with (Qcmin q y); [|apply Qcmin_lb_r].
        apply IH. left.
      * apply IH. by right.
Qed.

Lemma foldl_Qcmin_elem qs : forall q, foldl Qcmin q qs ∈ q :: qs.
Proof.
  induction qs as [|y qs IH]; intros q; simpl; [left|].
  specialize (IH (Qcmin q y)).
  apply elem_of_cons in IH as [->|IH]; [|by do 2 right].
  destruct (Qcmin_cases q y) as [->| ->]; [left|right; left].
Qed.

Lemma smin_spec (s : Series) (q0 : Qc) : q0 ∈ dropna s ->
  exists m : Qc, smin s = Fin m /\ m ∈ dropna s
                 /\ forall x, x ∈ dropna s -> m <= x.
Proof.
  intros Hq. unfold smin, reduce.
  destruct (dropna s) as [|q qs]; [by apply elem_of_nil in Hq|].
  eexists. split; [done|]. split; [apply foldl_Qcmin_elem|].
  intros x Hx. by apply foldl_Qcmin_lb.
Qed.
End ReduceMin.

(* ===================================================================== *)
(** * AmplitudeShiftAnomaly *)
(* ===================================================================== *)

(** C6 as the code has it.  [AmplitudeShiftAnomaly(T, ratio)] never
    fails and draws no random number: every value of [T] is moved by
    [(max(T) - min(T)) * ratio] under the labels of [T].  For the empty
    template [max] and [min] are NaN and the anomaly is the empty
    series. *)
Theorem C6_AmplitudeShiftAnomaly_total (T : Series) (ratio : float)
    (rs : RandomState) :
  (exists out : Series,
     init (Simple (AmplitudeShiftAnomaly ratio)) T rs
       = (Ok (mkAnomaly T out (Simple (AmplitudeShiftAnomaly ratio))), rs)
     /\ values out
          = (fun v => fadd v (fmul (fsub (smax T) (smin T)) ratio)) <$> values T
     /\ labels out = labels T)
  /\ smax [] = NaN /\ smin [] = NaN
  /\ init (Simple (AmplitudeShiftAnomaly ratio)) [] rs
       = (Ok (mkAnomaly [] [] (Simple (AmplitudeShiftAnomaly ratio))), rs).
Proof.
  split; [|by rewrite init_generate].
  eexists. split; [by rewrite init_generate|].
  split; [apply values_sadd|apply labels_sadd].
Qed.

(* ===================================================================== *)
(** * PointAnomaly *)
(* ===================================================================== *)

Section PointFacts.
Variables (upper lower mu sigma : float).

Lemma advance_0 rs : advance rs 0 = rs.
Proof. destruct rs as [g c]. unfold advance. simpl. f_equal. lia. Qed.

Lemma advance_advance rs n m : advance (advance rs n) m = advance rs (n + m).
Proof. unfold advance. simpl. f_equal. lia. Qed.

Lemma draw_advance rs n i :
  draw (advance rs n) mu sigma i = draw rs mu sigma (n + i).
Proof. unfold draw, advance. simpl. do 4 f_equal. lia. Qed.

Lemma pairs_S rs n :
  pairs upper lower mu sigma rs (S n) = [fadd upper (draw rs mu sigma 0); fadd lower (draw rs mu sigma 1)]
                   ++ pairs upper lower mu sigma (advance rs 2) n.
Proof.
  unfold pairs. rewrite <-cons_seq, fmap_cons, concat_cons. f_equal.
  rewrite <-fmap_S_seq, <-list_fmap_compose. f_equal.
  apply list_fmap_ext. intros _ k _. simpl.
  rewrite !draw_advance. repeat f_equal; lia.
Qed.

Lemma length_pairs rs n : length (pairs upper lower mu sigma rs n) = (2 * n)%nat.
Proof.
  revert rs. induction n as [|n IH]; intros rs; [done|].
  rewrite pairs_S, length_app, IH. simpl. lia.
Qed.

Lemma pairs_lookup rs n : forall k, (k < n)%nat ->
  pairs upper lower mu sigma rs n !! (2 * k)%nat = Some (fadd upper (draw rs mu sigma (2 * k)))
  /\ pairs upper lower mu sigma rs n !! (2 * k + 1)%nat
       = Some (fadd lower (draw rs mu sigma (2 * k + 1))).
Proof.
  revert rs. induction n as [|n IH]; intros rs k Hk; [lia|].
  rewrite pairs_S. destruct k as [|k]; [done|].
  replace (2 * S k)%nat with (2 + 2 * k)%nat by lia.
  replace (2 + 2 * k + 1)%nat with (2 + (2 * k + 1))%nat by lia.
  rewrite !(lookup_app_r [_; _]) by (cbn [length]; lia). cbn [length].
  replace (2 + 2 * k - 2)%nat with (2 * k)%nat by lia.
  replace (2 + (2 * k + 1) - 2)%nat with (2 * k + 1)%nat by lia.
  destruct (IH (advance rs 2) k) as [H0 H1]; [lia|].
  rewrite H0, H1, !draw_advance. done.
Qed.

(** [np.random.normal] with a scale that is not negative. *)
Lemma normal_ok rs n : flt sigma f0 = false ->
  normal mu sigma n rs = (Ok (draw rs mu sigma <$> seq 0 n), advance rs n).
Proof. intros H. unfold normal. by rewrite H. Qed.

(** The loop, from any accumulated series: it appends the pairs and
    each append resets the index. *)
Lemma PointAnomaly_loop_spec : flt sigma f0 = false ->
  forall n acc rs,
    labels acc = range_index (length acc) ->
    exists out : Series,
      PointAnomaly_loop n (mkSeries [upper; lower]) mu sigma acc rs
        = (Ok out, advance rs (2 * n))
      /\ values out = values acc ++ pairs upper lower mu sigma rs n
      /\ labels out = range_index (length out).
Proof.
  intros Hsigma. induction n as [|n IH]; intros acc rs Hacc.
  - exists acc. unfold pairs. simpl. by rewrite advance_0, app_nil_r.
  - cbn [PointAnomaly_loop]. unfold mbind, Py_bind.
    rewrite normal_ok by done. unfold lift. simpl.
    set (acc' := concat_ignore_index _).
    destruct (IH acc' (advance rs 2)) as (out & Hout & Hv & Hl).
    { unfold acc', concat_ignore_index.
      by rewrite labels_reset_index, length_reset_index. }
    exists out. rewrite Hout, advance_advance. split; [do 2 f_equal; lia|].
    split; [|done].
    rewrite Hv, pairs_S. unfold acc'.
    rewrite values_concat_ignore_index. simpl.
    by rewrite <-app_assoc.
Qed.
End PointFacts.

Lemma draw_zero rs i : draw rs f0 f0 i = f0.
Proof.
  unfold draw, f0, fmul, fadd, fbinop.
  by rewrite Qcmult_0_l, Qcplus_0_l.
Qed.

Lemma fadd_f0_r x : fadd x f0 = x.
Proof. destruct x as [q|]; [|done]. unfold fadd, f0, fbinop. by rewrite Qcplus_0_r. Qed.

Lemma not_negative (sigma : Qc) : (0 <= sigma)%Qc -> flt (Fin sigma) f0 = false.
Proof.
  intros H. unfold flt, f0. apply bool_decide_eq_false_2. by apply Qcle_not_lt.
Qed.

(** The method with an [int] count and a scale that is not negative. *)
Lemma PointAnomaly_generate_spec (T : Series) (ratio mu sigma : float)
    (count : Z) rs :
  flt sigma f0 = false ->
  let _mid := fmul (fsub (smax T) (smin T)) ratio in
  let _upper := fadd (smax T) _mid in
  let _lower := fsub (smin T) _mid in
  exists out : Series,
    PointAnomaly_generate T ratio mu sigma (PyInt count) rs
      = (Ok out, advance rs (2 * Z.to_nat count))
    /\ values out = pairs _upper _lower mu sigma rs (Z.to_nat count)
    /\ labels out = range_index (length out).
Proof.
  intros Hsigma _mid _upper _lower.
  destruct (PointAnomaly_loop_spec _upper _lower mu sigma Hsigma
              (Z.to_nat count) (mkSeries []) rs) as (out & Hout & Hv & Hl);
    [done|].
  exists out. split; [|by split].
  unfold PointAnomaly_generate. exact Hout.
Qed.


(** With a negative scale the first iteration raises. *)
Lemma PointAnomaly_negative_sigma (T : Series) (ratio mu sigma : float)
    (count : Z) rs :
  flt sigma f0 = true -> 0 < count ->
  PointAnomaly_generate T ratio mu sigma (PyInt count) rs = (Raise ValueError, rs).
Proof.
  intros Hsigma Hcount. unfold PointAnomaly_generate.
  destruct (Z.to_nat count) as [|n] eqn:E; [lia|].
  unfold mbind, Py_bind, lift, py_range. rewrite E.
  cbn [PointAnomaly_loop]. unfold mbind, Py_bind, normal. by rewrite Hsigma.
Qed.

(** C7 as the code has it.  A negative integer [count] is not rejected:
    [range(count)] is empty, the loop body never runs, and the anomaly is
    the empty series whatever the other arguments are.  A [float] count
    makes [range] raise [TypeError]. *)
Theorem C7_PointAnomaly_count_domain (T : Series) (ratio mu sigma : float)
    (count : Z) (rs : RandomState) :
  count < 0 ->
  init (Simple (PointAnomaly ratio mu sigma (PyInt count))) T rs
    = (Ok (mkAnomaly T [] (Simple (PointAnomaly ratio mu sigma (PyInt count)))), rs)
  /\ forall x : float,
       init (Simple (PointAnomaly ratio mu sigma (PyFloat x))) T rs
         = (Raise TypeError, rs).
Proof.
  intros Hneg. split.
  - rewrite init_generate. cbn [generate Stage_anomaly].
    unfold PointAnomaly_generate, mbind, Py_bind, lift, py_range.
    replace (Z.to_nat count) with 0%nat by lia. done.
  - intros x. by rewrite init_generate.
Qed.

(* ===================================================================== *)
(** * The object store: what the operations leave unchanged *)
(* ===================================================================== *)

Module HeapFacts.
Import Heap.

Section Rules.
Context {A B : Type}.
Implicit Types (m : HPy A) (k : A -> HPy B).

Lemma bind_Ok_inv m k w b :
  ((m ≫= k) w).1 = Ok b ->
  exists a, (m w).1 = Ok a /\ (k a (m w).2).1 = Ok b.
Proof.
  unfold mbind, HPy_bind. destruct (m w) as [[a|e] w']; simpl; [eauto|done].
Qed.

Lemma bind_world m k w :
  ((m ≫= k) w).2 =
    match (m w).1 with
    | Ok a => (k a (m w).2).2
    | Raise _ => (m w).2
    end.
Proof. unfold mbind, HPy_bind. by destruct (m w) as [[a|e] w']. Qed.

Lemma mono_bind m k : mono m -> (forall a, mono (k a)) -> mono (m ≫= k).
Proof.
  intros Hm Hk w. rewrite bind_world. specialize (Hm w).
  destruct (m w).1 as [a|e]; [|done].
  etrans; [exact Hm|apply Hk].
Qed.

Lemma keeps_bind h0 m k :
  keeps h0 m -> (forall a, keeps h0 (k a)) -> keeps h0 (m ≫= k).
Proof.
  intros Hm Hk w Hw. rewrite bind_world. specialize (Hm w Hw).
  destruct (m w).1 as [a|e]; [|done]. by apply Hk.
Qed.

Lemma mono_keeps h0 m : mono m -> keeps h0 m.
Proof. intros Hm w Hw. etrans; [exact Hw|apply Hm]. Qed.

Lemma returns_bind (b : B) m k :
  (forall a, returns b (k a)) -> returns b (m ≫= k).
Proof.
  intros Hk w r Hr. apply bind_Ok_inv in Hr as (a & _ & Hr).
  by eapply Hk.
Qed.

Lemma mono_ret (a : A) : mono (mret a).
Proof. by intros w. Qed.

Lemma mono_raise (e : PyExc) : mono (raise e : HPy A).
Proof. by intros w. Qed.

Lemma mono_lift (r : result A) : mono (lift r).
Proof. by intros w. Qed.

Lemma mono_random (c : Py A) : mono (random c).
Proof. intros w. unfold random. by destruct (c (rng w)). Qed.
End Rules.

Lemma fresh_result_bind {A} (m : HPy A) (k : A -> HPy loc) :
  mono m -> (forall a, fresh_result (k a)) -> fresh_result (m ≫= k).
Proof.
  intros Hm Hk w r Hr. apply bind_Ok_inv in Hr as (a & _ & Hr).
  apply Hk in Hr. specialize (Hm w).
  destruct (heap w !! r) as [o|] eqn:E; [|done].
  rewrite (lookup_weaken _ _ _ _ E Hm) in Hr. done.
Qed.

Lemma alloc_fresh (w : World) : heap w !! fresh (dom (heap w)) = None.
Proof. apply not_elem_of_dom, is_fresh. Qed.

Lemma mono_alloc o : mono (alloc o).
Proof. intros w. simpl. apply insert_subseteq, alloc_fresh. Qed.

Lemma fresh_result_alloc o : fresh_result (alloc o).
Proof. intros w r [= <-]. apply alloc_fresh. Qed.

Lemma mono_read l : mono (read l).
Proof. intros w. unfold read. by destruct (heap w !! l) as [[]|]. Qed.

Lemma mono_getattr self name : mono (getattr self name).
Proof.
  intros w. unfold getattr.
  destruct (heap w !! self) as [[|dict]|]; [done| |done].
  by destruct (dict !! name).
Qed.

Create HintDb mono.
#[local] Hint Resolve mono_ret mono_raise mono_lift mono_random mono_alloc
  mono_read mono_getattr : mono.

(** Solves [mono] goals for straight-line code over the primitives. *)
Ltac mono_tac :=
  repeat first
    [ progress auto with mono
    | apply mono_bind; [|intros ?]
    | match goal with
      | |- mono (match ?x with _ => _ end) => destruct x
      | |- mono (if ?b then _ else _) => destruct b
      end ].

Lemma mono_get_ref self name : mono (get_ref self name).
Proof. unfold get_ref. mono_tac. Qed.

Lemma mono_get_float self name : mono (get_float self name).
Proof. unfold get_float. mono_tac. Qed.

Lemma mono_get_num self name : mono (get_num self name).
Proof. unfold get_num. mono_tac. Qed.

Lemma mono_get_tuple self name : mono (get_tuple self name).
Proof. unfold get_tuple. mono_tac. Qed.

Lemma mono_new_series s : mono (new_series s).
Proof. apply mono_alloc. Qed.

Lemma mono_op1 f l : mono (op1 f l).
Proof. unfold op1, new_series. mono_tac. Qed.

Lemma mono_op1r f l : mono (op1r f l).
Proof. unfold op1r, new_series. mono_tac. Qed.

Lemma mono_read_all ls : mono (read_all ls).
Proof. induction ls as [|l ls IH]; simpl; mono_tac. Qed.

Lemma mono_concat ls : mono (concat ls).
Proof. unfold concat, new_series. pose proof (mono_read_all ls). mono_tac. Qed.

#[local] Hint Resolve mono_get_ref mono_get_float mono_get_num mono_get_tuple
  mono_new_series mono_op1 mono_op1r mono_concat : mono.

Lemma fresh_result_op1 f l : fresh_result (op1 f l).
Proof.
  unfold op1. apply fresh_result_bind; [auto with mono|].
  intros s. apply fresh_result_alloc.
Qed.

Lemma fresh_result_concat ls : fresh_result (concat ls).
Proof.
  unfold concat. apply fresh_result_bind; [apply mono_read_all|].
  intros s. apply fresh_result_alloc.
Qed.

(** The [_generate] methods of the simple classes only allocate. *)
Lemma mono_PointAnomaly_loop n self point : forall anomaly,
  mono (PointAnomaly_loop n self point anomaly).
Proof. induction n as [|n IH]; intros anomaly; simpl; mono_tac. Qed.

Lemma mono_Stage_generate kind self : mono (Stage_generate kind self).
Proof.
  destruct kind; simpl;
    [ unfold NoisyAnomaly_generate
    | unfold RangeShiftAnomaly_generate
    | unfold AmplitudeShiftAnomaly_generate
    | unfold PointAnomaly_generate
    | unfold FrequencyShiftAnomaly_generate ];
    unfold copy, len, max, min; mono_tac.
  apply mono_PointAnomaly_loop.
Qed.

(** Assigning an attribute of an object that is not in [h0]. *)
Lemma keeps_setattr h0 self name v :
  h0 !! self = None -> keeps h0 (setattr self name v).
Proof.
  intros Hself w Hw. unfold setattr.
  destruct (heap w !! self) as [[|dict]|]; [done| |done]. simpl.
  by apply insert_subseteq_r.
Qed.

Lemma keeps_dict_update h0 self kwargs :
  h0 !! self = None -> keeps h0 (dict_update self kwargs).
Proof.
  intros Hself w Hw. unfold dict_update.
  destruct (heap w !! self) as [[|dict]|]; [done| |done]. simpl.
  by apply insert_subseteq_r.
Qed.

Lemma returns_ret {A} (a : A) : returns a (mret a).
Proof. by intros w r [= <-]. Qed.

Section InitFacts.
Variables (_generate : loc -> HPy loc) (template : loc)
  (args : list Stage) (kwargs : list (string * arg)).
Hypothesis mono_generate : forall self, mono (_generate self).

(** [__init__] leaves every object other than [self] unchanged. *)
Lemma keeps_BaseAnomaly_init h0 self :
  h0 !! self = None ->
  keeps h0 (BaseAnomaly_init _generate self template args kwargs).
Proof using mono_generate.
  intros Hself. unfold BaseAnomaly_init.
  repeat first
    [ apply keeps_bind; [|intros ?]
    | by apply keeps_setattr
    | by apply keeps_dict_update
    | apply mono_keeps; unfold pdSeries, copy; auto with mono ].
Qed.

(** A constructor call leaves every object of the store it starts
    from unchanged. *)
Lemma mono_new : mono (new _generate template args kwargs).
Proof using mono_generate.
  intros w. unfold new. rewrite bind_world.
  pose proof (alloc_fresh w) as Hfresh.
  cbn [fst snd alloc].
  set (self := fresh (dom (heap w))) in *.
  set (w1 := mkWorld _ _).
  assert (Hw1 : heap w ⊆ heap w1) by (by apply insert_subseteq).
  revert Hw1. generalize w1. clear w1.
  change (keeps (heap w)
    (_ ← BaseAnomaly_init _generate self template args kwargs; mret self)).
  apply keeps_bind; [by apply keeps_BaseAnomaly_init|].
  intros _. apply mono_keeps, mono_ret.
Qed.

(** It returns the instance it allocated, a new object. *)
Lemma fresh_result_new : fresh_result (new _generate template args kwargs).
Proof using Type.
  intros w r Hr. unfold new in Hr.
  apply bind_Ok_inv in Hr as (self & [= <-] & Hr).
  apply bind_Ok_inv in Hr as (u & _ & [= <-]).
  apply alloc_fresh.
Qed.
End InitFacts.

Lemma mono_Stage_init kind template : mono (Stage_init kind template).
Proof. apply mono_new. intros self. apply mono_Stage_generate. Qed.

Lemma mono_CompoundAnomaly_loop transformations : forall anomaly,
  mono (CompoundAnomaly_loop transformations anomaly).
Proof.
  induction transformations as [|kind rest IH]; intros anomaly; simpl.
  - auto with mono.
  - apply mono_bind; [apply mono_Stage_init|]. intros inst.
    apply mono_bind; [auto with mono|]. intros a. apply IH.
Qed.

Lemma mono_CompoundAnomaly_generate self : mono (CompoundAnomaly_generate self).
Proof.
  unfold CompoundAnomaly_generate, copy.
  pose proof mono_CompoundAnomaly_loop. mono_tac.
Qed.

Lemma mono_init call template : mono (init call template).
Proof.
  destruct call as [kind|transformations]; simpl.
  - apply mono_Stage_init.
  - apply mono_new, mono_CompoundAnomaly_generate.
Qed.

Lemma fresh_result_init call template : fresh_result (init call template).
Proof.
  destruct call as [kind|transformations]; simpl;
    apply fresh_result_new.
Qed.

Lemma mono_insert self timeseries index : mono (insert self timeseries index).
Proof. unfold insert, pdSeries. mono_tac. Qed.

Lemma fresh_result_insert self timeseries index :
  fresh_result (insert self timeseries index).
Proof.
  unfold insert, pdSeries.
  apply fresh_result_bind; [auto with mono|]. intros anomaly.
  destruct index as [index|].
  - do 3 (apply fresh_result_bind; [auto with mono|intros ?]).
    apply fresh_result_concat.
  - apply fresh_result_bind; [auto with mono|intros ?].
    apply fresh_result_concat.
Qed.

Lemma mono_plot self : mono (plot self).
Proof. unfold plot, len. mono_tac. Qed.

Lemma mono_str call self : mono (str call self).
Proof. destruct call; simpl; auto with mono. Qed.
End HeapFacts.

(** C10. Over the object store, every operation of the module leaves
    every object it did not create unchanged.  Constructing an instance of
    any of the six classes (whether it returns or raises) leaves each
    object of the starting store as it was, the caller's template among
    them, and the instance it returns is a new object.  [insert] leaves
    each object as it was, the host series, the instance and the
    instance's template and anomaly among them, and the series it returns
    is a new object.  [plot] and [__str__], the other methods that take a
    constructed instance, leave each object as it was too. *)
Theorem C10_operations_leave_inputs_unchanged (w : Heap.World) (call : Call)
    (template self timeseries : Heap.loc) (index : option Z) :
  let unchanged (w' : Heap.World) : Prop :=
    forall (l : Heap.loc) (o : Heap.obj),
      Heap.heap w !! l = Some o -> Heap.heap w' !! l = Some o in
  unchanged (Heap.init call template w).2
  /\ (forall new : Heap.loc,
        (Heap.init call template w).1 = Ok new -> Heap.heap w !! new = None)
  /\ unchanged (Heap.insert self timeseries index w).2
  /\ (forall new : Heap.loc,
        (Heap.insert self timeseries index w).1 = Ok new ->
        Heap.heap w !! new = None)
  /\ unchanged (Heap.plot self w).2
  /\ unchanged (Heap.str call self w).2.
Proof.
  intros unchanged.
  assert (Hsub : forall w', Heap.heap w ⊆ Heap.heap w' -> unchanged w').
  { intros w' Hw' l o Hl. by eapply lookup_weaken. }
  split; [apply Hsub, HeapFacts.mono_init|].
  split; [apply HeapFacts.fresh_result_init|].
  split; [apply Hsub, HeapFacts.mono_insert|].
  split; [apply HeapFacts.fresh_result_insert|].
  split; [apply Hsub, HeapFacts.mono_plot|apply Hsub, HeapFacts.mono_str].
Qed.

(* ===================================================================== *)
(** * The object store: the classes compute the same series *)
(* ===================================================================== *)

Module HeapRefinement.

(** The methods over Series values, under names that the methods over
    the store do not hide. *)
Local Abbreviation v_NoisyAnomaly_generate := NoisyAnomaly_generate.
Local Abbreviation v_RangeShiftAnomaly_generate := RangeShiftAnomaly_generate.
Local Abbreviation v_AmplitudeShiftAnomaly_generate := AmplitudeShiftAnomaly_generate.
Local Abbreviation v_PointAnomaly_generate := PointAnomaly_generate.
Local Abbreviation v_PointAnomaly_loop := PointAnomaly_loop.
Local Abbreviation v_FrequencyShiftAnomaly_generate := FrequencyShiftAnomaly_generate.
Local Abbreviation v_CompoundAnomaly_loop := CompoundAnomaly_loop.
Local Abbreviation v_CompoundAnomaly_generate := CompoundAnomaly_generate.
Local Abbreviation v_init := init.
Local Abbreviation v_insert := insert.
Local Abbreviation v_lift := lift.

(** The methods over Series values, as case analyses on their steps. *)
Lemma NoisyAnomaly_run T mu sigma rs :
  NoisyAnomaly_generate T mu sigma rs =
    match normal mu sigma (length T) rs with
    | (Ok noise, rs') => (sadd_array T noise, rs')
    | (Raise e, rs') => (Raise e, rs')
    end.
Proof.
  unfold NoisyAnomaly_generate, mbind, Py_bind, lift.
  by destruct (normal mu sigma (length T) rs) as [[noise|e] rs'].
Qed.

Lemma FrequencyShiftAnomaly_run T ratio rs :
  FrequencyShiftAnomaly_generate T ratio rs =
    if flt f0 ratio && fle ratio f1 then
      match fdiv f1 ratio with
      | Ok q =>
          match py_int q with
          | Ok k =>
              match iloc_step T k with
              | Ok sliced => (Ok (reset_index sliced), rs)
              | Raise e => (Raise e, rs)
              end
          | Raise e => (Raise e, rs)
          end
      | Raise e => (Raise e, rs)
      end
    else (Raise NotImplementedError, rs).
Proof.
  unfold FrequencyShiftAnomaly_generate, mbind, Py_bind, lift.
  destruct (flt f0 ratio && fle ratio f1); [|done].
  destruct (fdiv f1 ratio) as [q|e]; [|done].
  destruct (py_int q) as [k|e]; [|done].
  by destruct (iloc_step T k).
Qed.

Lemma PointAnomaly_loop_run n point mu sigma acc rs :
  PointAnomaly_loop (S n) point mu sigma acc rs =
    match normal mu sigma 2 rs with
    | (Ok noise, rs') =>
        match sadd_array point noise with
        | Ok point_anomaly =>
            PointAnomaly_loop n point mu sigma
              (concat_ignore_index [acc; point_anomaly]) rs'
        | Raise e => (Raise e, rs')
        end
    | (Raise e, rs') => (Raise e, rs')
    end.
Proof.
  cbn [PointAnomaly_loop]. unfold mbind, Py_bind, lift.
  destruct (normal mu sigma 2 rs) as [[noise|e] rs']; [|done].
  by destruct (sadd_array point noise).
Qed.

Lemma PointAnomaly_run T ratio mu sigma count rs :
  PointAnomaly_generate T ratio mu sigma count rs =
    let _mid := fmul (fsub (smax T) (smin T)) ratio in
    match py_range count with
    | Ok n =>
        PointAnomaly_loop n
          (mkSeries [fadd (smax T) _mid; fsub (smin T) _mid]) mu sigma
          (mkSeries []) rs
    | Raise e => (Raise e, rs)
    end.
Proof.
  unfold PointAnomaly_generate, mbind, Py_bind, lift.
  by destruct (py_range count).
Qed.

Lemma CompoundAnomaly_loop_run kind rest a rs :
  CompoundAnomaly_loop (kind :: rest) a rs =
    match Stage_anomaly kind a rs with
    | (Ok a', rs') => CompoundAnomaly_loop rest a' rs'
    | (Raise e, rs') => (Raise e, rs')
    end.
Proof. done. Qed.

Import Heap HeapFacts.

Section WpRules.
Context {A : Type}.
Implicit Types (w : World) (post : result A -> World -> Prop).

Lemma wp_bind {B} (m : HPy B) (k : B -> HPy A) w post :
  wp m w (fun r w' =>
            match r with
            | Ok b => wp (k b) w' post
            | Raise e => post (Raise e) w'
            end) ->
  wp (m ≫= k) w post.
Proof. unfold wp, mbind, HPy_bind. by destruct (m w) as [[b|e] w']. Qed.

Lemma wp_ret (a : A) w post : post (Ok a) w -> wp (mret a) w post.
Proof. done. Qed.

Lemma wp_raise (e : PyExc) w post : post (Raise e) w -> wp (raise e) w post.
Proof. done. Qed.

Lemma wp_lift (r : result A) w post : post r w -> wp (lift r) w post.
Proof. done. Qed.

Lemma wp_random (c : Py A) w post :
  post (c (rng w)).1 (mkWorld (heap w) (c (rng w)).2) -> wp (random c) w post.
Proof. unfold wp, random. by destruct (c (rng w)). Qed.
End WpRules.

Section StoreRules.
Implicit Types (w : World) (l self : loc) (s : Series).

Lemma wp_alloc o w (post : result loc -> World -> Prop) :
  (forall l w', heap w ⊆ heap w' -> rng w' = rng w ->
                heap w' !! l = Some o -> post (Ok l) w') ->
  wp (alloc o) w post.
Proof.
  intros H. unfold wp. simpl. apply H; simpl.
  - apply insert_subseteq, alloc_fresh.
  - done.
  - apply lookup_insert_eq.
Qed.

Lemma wp_read l s w (post : result Series -> World -> Prop) :
  heap w !! l = Some (OSeries s) -> post (Ok s) w -> wp (read l) w post.
Proof. intros Hl H. unfold wp, read. by rewrite Hl. Qed.

Lemma wp_getattr self name d v w (post : result value -> World -> Prop) :
  heap w !! self = Some (OInstance d) -> d !! name = Some v ->
  post (Ok v) w -> wp (getattr self name) w post.
Proof. intros Hs Hn H. unfold wp, getattr. by rewrite Hs, Hn. Qed.

Lemma wp_setattr self name v d w (post : result unit -> World -> Prop) :
  heap w !! self = Some (OInstance d) ->
  (forall w', rng w' = rng w ->
              heap w' !! self = Some (OInstance (<[name := v]> d)) ->
              (forall l, l <> self -> heap w' !! l = heap w !! l) ->
              post (Ok tt) w') ->
  wp (setattr self name v) w post.
Proof.
  intros Hs H. unfold wp, setattr. rewrite Hs. simpl. apply H; simpl.
  - done.
  - apply lookup_insert_eq.
  - intros l Hl. by apply lookup_insert_ne.
Qed.

Lemma wp_dict_update self kwargs d w (post : result unit -> World -> Prop) :
  heap w !! self = Some (OInstance d) ->
  (forall w', rng w' = rng w ->
              heap w' !! self
                = Some (OInstance (foldl (fun d kv => <[kv.1 := VArg kv.2]> d) d kwargs)) ->
              (forall l, l <> self -> heap w' !! l = heap w !! l) ->
              post (Ok tt) w') ->
  wp (dict_update self kwargs) w post.
Proof.
  intros Hs H. unfold wp, dict_update. rewrite Hs. simpl. apply H; simpl.
  - done.
  - apply lookup_insert_eq.
  - intros l Hl. by apply lookup_insert_ne.
Qed.

Lemma wp_get_ref self name d l w (post : result loc -> World -> Prop) :
  heap w !! self = Some (OInstance d) -> d !! name = Some (VRef l) ->
  post (Ok l) w -> wp (get_ref self name) w post.
Proof.
  intros Hs Hn H. unfold get_ref. apply wp_bind.
  eapply wp_getattr; [done..|]. by apply wp_ret.
Qed.

Lemma wp_get_float self name d x w (post : result float -> World -> Prop) :
  heap w !! self = Some (OInstance d) -> d !! name = Some (VArg (AFloat x)) ->
  post (Ok x) w -> wp (get_float self name) w post.
Proof.
  intros Hs Hn H. unfold get_float. apply wp_bind.
  eapply wp_getattr; [done..|]. by apply wp_ret.
Qed.

Lemma wp_get_num self name d n w (post : result pynum -> World -> Prop) :
  heap w !! self = Some (OInstance d) -> d !! name = Some (VArg (ANum n)) ->
  post (Ok n) w -> wp (get_num self name) w post.
Proof.
  intros Hs Hn H. unfold get_num. apply wp_bind.
  eapply wp_getattr; [done..|]. by apply wp_ret.
Qed.

Lemma wp_get_tuple self name d args w (post : result (list Stage) -> World -> Prop) :
  heap w !! self = Some (OInstance d) -> d !! name = Some (VTuple args) ->
  post (Ok args) w -> wp (get_tuple self name) w post.
Proof.
  intros Hs Hn H. unfold get_tuple. apply wp_bind.
  eapply wp_getattr; [done..|]. by apply wp_ret.
Qed.

Lemma wp_op1 f l s w (post : result loc -> World -> Prop) :
  heap w !! l = Some (OSeries s) ->
  (forall l' w', heap w ⊆ heap w' -> rng w' = rng w ->
                 heap w' !! l' = Some (OSeries (f s)) -> post (Ok l') w') ->
  wp (op1 f l) w post.
Proof.
  intros Hl H. unfold op1. apply wp_bind.
  eapply wp_read; [done|]. by apply wp_alloc.
Qed.

Lemma wp_op1r f l s w (post : result loc -> World -> Prop) :
  heap w !! l = Some (OSeries s) ->
  match f s with
  | Ok s' =>
      forall l' w', heap w ⊆ heap w' -> rng w' = rng w ->
                    heap w' !! l' = Some (OSeries s') -> post (Ok l') w'
  | Raise e => post (Raise e) w
  end ->
  wp (op1r f l) w post.
Proof.
  intros Hl H. unfold op1r. apply wp_bind.
  eapply wp_read; [done|]. apply wp_bind, wp_lift.
  destruct (f s) as [s'|e]; [|done]. by apply wp_alloc.
Qed.

Lemma wp_reduce (f : Series -> float) l s w (post : result float -> World -> Prop) :
  heap w !! l = Some (OSeries s) -> post (Ok (f s)) w ->
  wp (s ← read l; mret (f s)) w post.
Proof. intros Hl H. apply wp_bind. eapply wp_read; [done|]. by apply wp_ret. Qed.

Lemma wp_len l s w (post : result nat -> World -> Prop) :
  heap w !! l = Some (OSeries s) -> post (Ok (length s)) w -> wp (len l) w post.
Proof. intros Hl H. apply wp_bind. eapply wp_read; [done|]. by apply wp_ret. Qed.

Lemma wp_read_all ls ss w (post : result (list Series) -> World -> Prop) :
  Forall2 (fun l s => heap w !! l = Some (OSeries s)) ls ss ->
  post (Ok ss) w -> wp (read_all ls) w post.
Proof.
  intros Hls. revert post. induction Hls as [|l s ls ss Hl Hls IH]; intros post H.
  - by apply wp_ret.
  - cbn [read_all]. apply wp_bind. eapply wp_read; [done|].
    apply wp_bind. apply IH. by apply wp_ret.
Qed.

Lemma wp_concat ls ss w (post : result loc -> World -> Prop) :
  Forall2 (fun l s => heap w !! l = Some (OSeries s)) ls ss ->
  (forall l' w', heap w ⊆ heap w' -> rng w' = rng w ->
                 heap w' !! l' = Some (OSeries (concat_ignore_index ss)) ->
                 post (Ok l') w') ->
  wp (concat ls) w post.
Proof.
  intros Hls H. unfold concat. apply wp_bind.
  eapply wp_read_all; [done|]. by apply wp_alloc.
Qed.
End StoreRules.

(** Carry the known objects over to the world after an allocation, or
    after an assignment to an attribute of [self]. *)
Ltac carry_sub Hsub :=
  repeat match goal with
  | H : heap ?w !! _ = Some _ |- _ =>
      lazymatch type of Hsub with
      | heap w ⊆ heap _ => eapply lookup_weaken in H; [|exact Hsub]
      end
  end;
  clear Hsub.

Ltac carry_oth Hoth Hself :=
  repeat match goal with
  | H : heap ?w !! ?x = Some (OSeries _) |- _ =>
      lazymatch type of Hoth with
      | (forall l, _ -> heap _ !! l = heap w !! l) =>
          rewrite <-(Hoth x) in H
            by (let E := fresh in intros E; rewrite E in H; congruence)
      end
  end;
  clear Hoth Hself.

Lemma wp_run {A} (m : HPy A) w r w' (post : result A -> World -> Prop) :
  m w = (r, w') -> post r w' -> wp m w post.
Proof. intros Hrun H. unfold wp. by rewrite Hrun. Qed.

Lemma wp_wand {A} (m : HPy A) w (post post' : result A -> World -> Prop) :
  wp m w post -> (forall r w', post r w' -> post' r w') -> wp m w post'.
Proof. unfold wp. auto. Qed.

Lemma wp_refines (v : Py Series) (m : HPy loc) w :
  refines v m w ->
  wp m w (fun r w' =>
            match v (rng w) with
            | (Ok out, rs') =>
                exists a, r = Ok a /\ rng w' = rs' /\ heap w' !! a = Some (OSeries out)
            | (Raise e, rs') => r = Raise e /\ rng w' = rs'
            end).
Proof.
  unfold wp, refines. destruct (v (rng w)) as [[out|e] rs'].
  - intros (a & w' & -> & <- & Ha). simpl. eauto.
  - intros (w' & -> & <-). done.
Qed.

Lemma refines_wp (v : Py Series) (m : HPy loc) w :
  wp m w (fun r w' =>
            match v (rng w) with
            | (Ok out, rs') =>
                exists a, r = Ok a /\ rng w' = rs' /\ heap w' !! a = Some (OSeries out)
            | (Raise e, rs') => r = Raise e /\ rng w' = rs'
            end) ->
  refines v m w.
Proof.
  unfold wp, refines. destruct (v (rng w)) as [[out|e] rs'], (m w) as [r w']; simpl.
  - intros (a & -> & <- & Ha). eauto.
  - intros [-> <-]. eauto.
Qed.

Lemma init_dict_lookup lt la args kwargs name :
  name ∉ kwargs.*1 ->
  init_dict lt la args kwargs !! name = base_dict lt la args kwargs !! name.
Proof.
  unfold init_dict. generalize (base_dict lt la args kwargs).
  induction kwargs as [|[k v] kw IH]; intros base Hname; [done|].
  rewrite fmap_cons in Hname. apply not_elem_of_cons in Hname as [Hne Hname].
  cbn [foldl]. rewrite IH by done. by apply lookup_insert_ne.
Qed.

(** A constructor call, given what its [_generate] does on the new
    instance. *)
Lemma new_refines _generate (v : Py Series) t T args kwargs w :
  heap w !! t = Some (OSeries T) ->
  "template" ∉ kwargs.*1 -> "anomaly" ∉ kwargs.*1 ->
  (forall self, mono (_generate self)) ->
  (forall self w1 lt la,
      heap w1 !! self = Some (OInstance (init_dict lt la args kwargs)) ->
      heap w1 !! lt = Some (OSeries T) ->
      heap w1 !! la = Some (OSeries T) ->
      rng w1 = rng w ->
      refines v (_generate self) w1) ->
  wp (new _generate t args kwargs) w (constructed v T w).
Proof.
  intros Ht Hkt Hka Hmono Hgen. unfold new, constructed.
  apply wp_bind, wp_alloc. intros self w1 Hsub Hrng1 Hself. carry_sub Hsub.
  apply wp_bind. unfold BaseAnomaly_init, pdSeries, copy.
  apply wp_bind. eapply wp_op1; [exact Ht|].
  intros l1 w2 Hsub Hrng2 Hl1. carry_sub Hsub.
  apply wp_bind. eapply wp_op1; [exact Hl1|].
  intros lt w3 Hsub Hrng3 Hlt. carry_sub Hsub.
  apply wp_bind. eapply wp_setattr; [exact Hself|].
  intros w4 Hrng4 Hself4 Hoth. carry_oth Hoth Hself.
  apply wp_bind. eapply wp_op1; [exact Ht|].
  intros la w5 Hsub Hrng5 Hla. carry_sub Hsub.
  apply wp_bind. eapply wp_setattr; [exact Hself4|].
  intros w6 Hrng6 Hself6 Hoth. carry_oth Hoth Hself4.
  apply wp_bind. eapply wp_setattr; [exact Hself6|].
  intros w7 Hrng7 Hself7 Hoth. carry_oth Hoth Hself6.
  apply wp_bind. eapply wp_setattr; [exact Hself7|].
  intros w8 Hrng8 Hself8 Hoth. carry_oth Hoth Hself7.
  apply wp_bind. eapply wp_dict_update; [exact Hself8|].
  intros w9 Hrng9 Hself9 Hoth. carry_oth Hoth Hself8.
  assert (Hrng : rng w9 = rng w) by congruence.
  specialize (Hgen self w9 lt la Hself9 Hlt Hla Hrng).
  pose proof (Hmono self w9) as Hsub.
  unfold refines in Hgen. rewrite Hrng in Hgen.
  destruct (v (rng w)) as [[out|e] rs'].
  - destruct Hgen as (a & w10 & Hrun & Hrng10 & Ha).
    rewrite Hrun in Hsub. cbn [fst snd] in Hsub.
    apply wp_bind. eapply wp_run; [exact Hrun|]. carry_sub Hsub.
    eapply wp_setattr; [exact Hself9|].
    intros w11 Hrng11 Hself11 Hoth. carry_oth Hoth Hself9.
    apply wp_ret.
    exists self, (<["anomaly" := VRef a]> (init_dict lt la args kwargs)), lt, a.
    split; [done|]. split; [congruence|]. split; [done|].
    split; [|split; [done|split; [apply lookup_insert_eq|done]]].
    rewrite lookup_insert_ne by done. by rewrite init_dict_lookup by done.
  - destruct Hgen as (w10 & Hrun & Hrng10).
    apply wp_bind. eapply wp_run; [exact Hrun|]. done.
Qed.

(** [RangeShiftAnomaly._generate] on an initialised instance. *)
Lemma RangeShiftAnomaly_generate_refines self w lt la T ratio :
  heap w !! self
    = Some (OInstance (init_dict lt la [] (kwargs_of (RangeShiftAnomaly ratio)))) ->
  heap w !! lt = Some (OSeries T) ->
  refines (v_RangeShiftAnomaly_generate T ratio)
          (RangeShiftAnomaly_generate self) w.
Proof.
  intros Hself Hlt. apply refines_wp. unfold RangeShiftAnomaly_generate, copy.
  apply wp_bind. eapply wp_get_ref; [exact Hself|done|].
  apply wp_bind. eapply wp_op1; [exact Hlt|].
  intros l1 w1 Hsub Hrng1 Hl1. carry_sub Hsub.
  apply wp_bind. eapply wp_get_float; [exact Hself|done|].
  eapply wp_op1; [exact Hl1|].
  intros l2 w2 Hsub Hrng2 Hl2.
  exists l2. split; [done|]. split; [congruence|done].
Qed.

(** [AmplitudeShiftAnomaly._generate] on an initialised instance. *)
Lemma AmplitudeShiftAnomaly_generate_refines self w lt la T ratio :
  heap w !! self
    = Some (OInstance (init_dict lt la [] (kwargs_of (AmplitudeShiftAnomaly ratio)))) ->
  heap w !! lt = Some (OSeries T) ->
  refines (v_AmplitudeShiftAnomaly_generate T ratio)
          (AmplitudeShiftAnomaly_generate self) w.
Proof.
  intros Hself Hlt. apply refines_wp.
  unfold AmplitudeShiftAnomaly_generate, copy, max, min.
  apply wp_bind. eapply wp_get_ref; [exact Hself|done|].
  apply wp_bind. eapply wp_reduce; [exact Hlt|].
  apply wp_bind. eapply wp_get_ref; [exact Hself|done|].
  apply wp_bind. eapply wp_reduce; [exact Hlt|].
  apply wp_bind. eapply wp_get_float; [exact Hself|done|].
  apply wp_bind. eapply wp_get_ref; [exact Hself|done|].
  apply wp_bind. eapply wp_op1; [exact Hlt|].
  intros l1 w1 Hsub Hrng1 Hl1. carry_sub Hsub.
  eapply wp_op1; [exact Hl1|].
  intros l2 w2 Hsub Hrng2 Hl2.
  exists l2. split; [done|]. split; [congruence|done].
Qed.

(** [NoisyAnomaly._generate] on an initialised instance. *)
Lemma NoisyAnomaly_generate_refines self w lt la T mu sigma :
  heap w !! self
    = Some (OInstance (init_dict lt la [] (kwargs_of (NoisyAnomaly mu sigma)))) ->
  heap w !! lt = Some (OSeries T) ->
  refines (v_NoisyAnomaly_generate T mu sigma) (NoisyAnomaly_generate self) w.
Proof.
  intros Hself Hlt. apply refines_wp. rewrite NoisyAnomaly_run.
  unfold NoisyAnomaly_generate, copy.
  apply wp_bind. eapply wp_get_ref; [exact Hself|done|].
  apply wp_bind. eapply wp_op1; [exact Hlt|].
  intros l1 w1 Hsub Hrng1 Hl1. carry_sub Hsub.
  apply wp_bind. eapply wp_get_float; [exact Hself|done|].
  apply wp_bind. eapply wp_get_float; [exact Hself|done|].
  apply wp_bind. eapply wp_len; [exact Hl1|].
  apply wp_bind, wp_random. rewrite Hrng1. unfold id.
  destruct (normal mu sigma (length T) (rng w)) as [[noise|e] rs'];
    cbn [fst snd]; [|done].
  eapply wp_op1r; [exact Hl1|]. unfold id.
  destruct (sadd_array T noise) as [s'|e]; [|done].
  intros l2 w2 Hsub Hrng2 Hl2.
  exists l2. split; [done|]. split; [by rewrite Hrng2|done].
Qed.

(** [FrequencyShiftAnomaly._generate] on an initialised instance. *)
Lemma FrequencyShiftAnomaly_generate_refines self w lt la T ratio :
  heap w !! self
    = Some (OInstance (init_dict lt la [] (kwargs_of (FrequencyShiftAnomaly ratio)))) ->
  heap w !! lt = Some (OSeries T) ->
  refines (v_FrequencyShiftAnomaly_generate T ratio)
          (FrequencyShiftAnomaly_generate self) w.
Proof.
  intros Hself Hlt. apply refines_wp. rewrite FrequencyShiftAnomaly_run.
  unfold FrequencyShiftAnomaly_generate.
  apply wp_bind. eapply wp_get_float; [exact Hself|done|].
  destruct (flt f0 ratio && fle ratio f1); [|by apply wp_raise].
  apply wp_bind, wp_lift. destruct (fdiv f1 ratio) as [q|e]; [|done].
  apply wp_bind, wp_lift. destruct (py_int q) as [k|e]; [|done].
  apply wp_bind. eapply wp_get_ref; [exact Hself|done|].
  apply wp_bind. eapply wp_op1r; [exact Hlt|].
  destruct (iloc_step T k) as [sliced|e]; [|done].
  intros l1 w1 Hsub Hrng1 Hl1. carry_sub Hsub.
  eapply wp_op1; [exact Hl1|].
  intros l2 w2 Hsub Hrng2 Hl2.
  exists l2. split; [done|]. split; [congruence|done].
Qed.

(** The loop of [PointAnomaly._generate], from any iteration. *)
Lemma PointAnomaly_loop_refines n self d mu sigma lpoint point :
  d !! "mu" = Some (VArg (AFloat mu)) ->
  d !! "sigma" = Some (VArg (AFloat sigma)) ->
  forall lacc acc w,
    heap w !! self = Some (OInstance d) ->
    heap w !! lpoint = Some (OSeries point) ->
    heap w !! lacc = Some (OSeries acc) ->
    refines (v_PointAnomaly_loop n point mu sigma acc)
            (PointAnomaly_loop n self lpoint lacc) w.
Proof.
  intros Hmu Hsigma.
  induction n as [|n IH]; intros lacc acc w Hself Hpoint Hacc; apply refines_wp.
  - apply wp_ret. exists lacc. done.
  - rewrite PointAnomaly_loop_run. cbn [PointAnomaly_loop].
    apply wp_bind. eapply wp_get_float; [exact Hself|done|].
    apply wp_bind. eapply wp_get_float; [exact Hself|done|].
    apply wp_bind, wp_random.
    destruct (normal mu sigma 2 (rng w)) as [[noise|e] rs'];
      cbn [fst snd]; [|done].
    set (w1 := mkWorld (heap w) rs').
    change (heap w) with (heap w1) in Hself, Hpoint, Hacc.
    apply wp_bind. eapply wp_op1r; [exact Hpoint|].
    destruct (sadd_array point noise) as [point_anomaly|e]; [|done].
    intros l1 w2 Hsub Hrng2 Hl1. carry_sub Hsub.
    apply wp_bind. eapply (wp_concat [lacc; l1] [acc; point_anomaly]).
    { repeat constructor; done. }
    intros l2 w3 Hsub Hrng3 Hl2. carry_sub Hsub.
    assert (Hrng : rs' = rng w3) by (rewrite Hrng3, Hrng2; done).
    rewrite Hrng. apply wp_refines, IH; done.
Qed.

(** [PointAnomaly._generate] on an initialised instance. *)
Lemma PointAnomaly_generate_refines self w lt la T ratio mu sigma count :
  heap w !! self
    = Some (OInstance
              (init_dict lt la [] (kwargs_of (PointAnomaly ratio mu sigma count)))) ->
  heap w !! lt = Some (OSeries T) ->
  refines (v_PointAnomaly_generate T ratio mu sigma count)
          (PointAnomaly_generate self) w.
Proof.
  intros Hself Hlt. apply refines_wp. rewrite PointAnomaly_run.
  unfold PointAnomaly_generate, max, min, new_series.
  apply wp_bind. eapply wp_get_ref; [exact Hself|done|].
  apply wp_bind. eapply wp_reduce; [exact Hlt|].
  apply wp_bind. eapply wp_get_ref; [exact Hself|done|].
  apply wp_bind. eapply wp_reduce; [exact Hlt|].
  apply wp_bind. eapply wp_get_float; [exact Hself|done|].
  apply wp_bind, wp_alloc. intros lp w1 Hsub Hrng1 Hlp. carry_sub Hsub.
  apply wp_bind, wp_alloc. intros lacc w2 Hsub Hrng2 Hlacc. carry_sub Hsub.
  apply wp_bind. eapply wp_get_num; [exact Hself|done|].
  apply wp_bind, wp_lift. cbv zeta.
  destruct (py_range count) as [n|e]; [|split; [done|congruence]].
  assert (Hrng : rng w = rng w2) by congruence.
  rewrite Hrng.
  by eapply wp_refines,
    (PointAnomaly_loop_refines n self
       (init_dict lt la [] (kwargs_of (PointAnomaly ratio mu sigma count)))).
Qed.

(** [_generate] of each simple class on an initialised instance. *)
Lemma Stage_generate_refines kind self w lt la T :
  heap w !! self = Some (OInstance (init_dict lt la [] (kwargs_of kind))) ->
  heap w !! lt = Some (OSeries T) ->
  refines (Stage_anomaly kind T) (Stage_generate kind self) w.
Proof.
  intros Hself Hlt. destruct kind; simpl.
  - by eapply NoisyAnomaly_generate_refines.
  - by eapply RangeShiftAnomaly_generate_refines.
  - by eapply AmplitudeShiftAnomaly_generate_refines.
  - by eapply PointAnomaly_generate_refines.
  - by eapply FrequencyShiftAnomaly_generate_refines.
Qed.

Lemma kwargs_of_not_attribute kind :
  ("template" ∉ (kwargs_of kind).*1) /\ ("anomaly" ∉ (kwargs_of kind).*1).
Proof.
  destruct kind; simpl; rewrite ?not_elem_of_cons;
    repeat split; try done; apply not_elem_of_nil.
Qed.

Lemma Stage_init_refines kind t T w :
  heap w !! t = Some (OSeries T) ->
  wp (Stage_init kind t) w (constructed (Stage_anomaly kind T) T w).
Proof.
  intros Ht. destruct (kwargs_of_not_attribute kind) as [Hkt Hka].
  unfold Stage_init. apply new_refines; [done..| |].
  - intros self. apply mono_Stage_generate.
  - intros self w1 lt la Hself Hlt _ _. by eapply Stage_generate_refines.
Qed.

(** The loop of [CompoundAnomaly._generate], from any stage. *)
Lemma CompoundAnomaly_loop_refines transformations : forall la a w,
  heap w !! la = Some (OSeries a) ->
  refines (v_CompoundAnomaly_loop transformations a)
          (CompoundAnomaly_loop transformations la) w.
Proof.
  induction transformations as [|kind rest IH]; intros la a w Hla;
    apply refines_wp.
  - apply wp_ret. exists la. done.
  - rewrite CompoundAnomaly_loop_run. cbn [CompoundAnomaly_loop].
    apply wp_bind.
    eapply wp_wand; [by apply (Stage_init_refines kind la a)|].
    intros r w'. unfold constructed.
    destruct (Stage_anomaly kind a (rng w)) as [[out|e] rs']; [|by intros [-> ?]].
    intros (inst & d & lt & la' & -> & Hrng & Hinst & _ & _ & Hd & Hla').
    apply wp_bind. eapply wp_get_ref; [exact Hinst|exact Hd|].
    rewrite <-Hrng. by apply wp_refines, IH.
Qed.

(** [CompoundAnomaly._generate] on an initialised instance. *)
Lemma CompoundAnomaly_generate_refines self w lt la T transformations :
  heap w !! self = Some (OInstance (init_dict lt la transformations [])) ->
  heap w !! la = Some (OSeries T) ->
  refines (v_CompoundAnomaly_generate T transformations)
          (CompoundAnomaly_generate self) w.
Proof.
  intros Hself Hla. apply refines_wp.
  unfold CompoundAnomaly_generate, copy.
  apply wp_bind. eapply wp_get_ref; [exact Hself|done|].
  apply wp_bind. eapply wp_op1; [exact Hla|].
  intros l1 w1 Hsub Hrng1 Hl1. carry_sub Hsub.
  apply wp_bind. eapply wp_get_tuple; [exact Hself|done|].
  rewrite <-Hrng1. apply wp_refines.
  by apply CompoundAnomaly_loop_refines.
Qed.

(** X23.  Constructing an instance over the store does what the constructor
    over Series values does: it raises the same exception after the same
    draws, or returns an instance whose [template] attribute refers to a
    Series object with the rows of the caller's template and whose
    [anomaly] attribute refers to a Series object with the generated
    rows. *)
Theorem init_refines (call : Call) (t : loc) (T : Series) (w : World) :
  heap w !! t = Some (OSeries T) ->
  match v_init call T (rng w) with
  | (Ok inst, rs') =>
      exists self w' d lt la,
        init call t w = (Ok self, w') /\ rng w' = rs'
        /\ heap w' !! self = Some (OInstance d)
        /\ d !! "template" = Some (VRef lt)
        /\ heap w' !! lt = Some (OSeries (template inst))
        /\ d !! "anomaly" = Some (VRef la)
        /\ heap w' !! la = Some (OSeries (anomaly inst))
  | (Raise e, rs') => exists w', init call t w = (Raise e, w') /\ rng w' = rs'
  end.
Proof.
  intros Ht. rewrite init_generate.
  assert (H : wp (init call t) w (constructed (generate call T) T w)).
  { destruct call as [kind|transformations]; cbn [init generate].
    - by apply Stage_init_refines.
    - apply new_refines; [done|apply not_elem_of_nil..| |].
      + apply mono_CompoundAnomaly_generate.
      + intros self w1 lt la Hself _ Hla _.
        by eapply CompoundAnomaly_generate_refines. }
  unfold wp, constructed in H.
  destruct (generate call T (rng w)) as [[out|e] rs'],
    (init call t w) as [r w'] eqn:Hrun; cbn [fst snd] in H.
  - destruct H as (self & d & lt & la & -> & H).
    exists self, w', d, lt, la. split; [done|exact H].
  - destruct H as [-> H]. by exists w'.
Qed.

(** X24.  [insert] over the store returns a reference to a Series object with
    the rows that [insert] over Series values returns. *)
Theorem insert_refines (inst : Anomaly) (self timeseries : loc)
    (index : option Z) (d : gmap string value) (la : loc) (h : Series)
    (w : World) :
  heap w !! self = Some (OInstance d) ->
  d !! "anomaly" = Some (VRef la) ->
  heap w !! la = Some (OSeries (anomaly inst)) ->
  heap w !! timeseries = Some (OSeries h) ->
  exists (r : loc) (w' : World) (out : Series),
    insert self timeseries index w = (Ok r, w')
    /\ rng w' = rng w
    /\ v_insert inst h index = Ok out
    /\ heap w' !! r = Some (OSeries out).
Proof.
  intros Hself Hd Hla Hh.
  assert (H : wp (insert self timeseries index) w (fun r w' =>
            exists l out, r = Ok l /\ rng w' = rng w
              /\ v_insert inst h index = Ok out
              /\ heap w' !! l = Some (OSeries out))).
  { unfold insert, pdSeries.
    apply wp_bind. eapply wp_get_ref; [exact Hself|exact Hd|].
    destruct index as [index|].
    - apply wp_bind. eapply wp_op1; [exact Hh|].
      intros l1 w1 Hsub Hrng1 Hl1. carry_sub Hsub.
      apply wp_bind. eapply wp_op1; [exact Hla|].
      intros l2 w2 Hsub Hrng2 Hl2. carry_sub Hsub.
      apply wp_bind. eapply wp_op1; [exact Hh|].
      intros l3 w3 Hsub Hrng3 Hl3. carry_sub Hsub.
      eapply (wp_concat [l1; l2; l3]); [repeat constructor; done|].
      intros l4 w4 Hsub Hrng4 Hl4.
      exists l4. eexists. split; [done|]. split; [congruence|].
      split; [reflexivity|exact Hl4].
    - apply wp_bind. eapply wp_op1; [exact Hla|].
      intros l2 w2 Hsub Hrng2 Hl2. carry_sub Hsub.
      eapply (wp_concat [timeseries; l2]); [repeat constructor; done|].
      intros l4 w4 Hsub Hrng4 Hl4.
      exists l4. eexists. split; [done|]. split; [congruence|].
      split; [reflexivity|exact Hl4]. }
  unfold wp in H. destruct (insert self timeseries index w) as [r w'].
  cbn [fst snd] in H. destruct H as (l & out & -> & H). by exists l, w', out.
Qed.
End HeapRefinement.

(* ===================================================================== *)
(** * Concrete runs *)
(* ===================================================================== *)

(** Two canonical rationals are equal when their fractions are. *)
Ltac qc_eq :=
  vm_compute;
  lazymatch goal with
  | |- Some (Fin _) = Some (Fin _) =>
      apply (f_equal (fun q => Some (Fin q))), Qc_is_canon; reflexivity
  | |- Fin _ = Fin _ => apply (f_equal Fin), Qc_is_canon; reflexivity
  end.

Lemma Qclt_0_third : (0 < Q2Qc (1 # 3))%Qc.
Proof. reflexivity. Qed.

Lemma Qcle_third_1 : (Q2Qc (1 # 3) <= 1)%Qc.
Proof. intros H. discriminate H. Qed.


Lemma Qcle_0_1 : (0 <= 1)%Qc.
Proof. intros H. discriminate H. Qed.



(** Inserting the eleven rows of [self_example] at index 5 of
    [T_example] gives 22 rows. *)
Lemma C4_insert_splices_witness :
  0 <= 5 <= Z.of_nat (length T_example)
  /\ exists out : Series,
       insert self_example T_example (Some 5) = Ok out
       /\ length out = 22%nat
       /\ take 5 (values out) = take 5 (values T_example)
       /\ labels out = range_index 22.
Proof.
  assert (H : 0 <= 5 <= Z.of_nat (length T_example)) by (vm_compute; split; discriminate).
  split; [exact H|].
  destruct (C4_insert_splices self_example T_example 5 H)
    as (out & _ & Hout & _ & Hlen & Htake & _ & _ & Hlab & _).
  exists out. split; [exact Hout|]. split; [exact Hlen|].
  split; [exact Htake|]. rewrite Hlab, Hlen. reflexivity.
Defined.

(** Index 25 into the eleven rows of [T_example]: no error, the anomaly
    is appended. *)
Lemma C5_insert_out_of_range_clamps_witness :
  (25 < 0 \/ Z.of_nat (length T_example) < 25)
  /\ exists out : Series,
       insert self_example T_example (Some 25) = Ok out
       /\ values out = values T_example ++ values (anomaly self_example).
Proof.
  assert (H : 25 < 0 \/ Z.of_nat (length T_example) < 25) by (right; reflexivity).
  split; [exact H|].
  destruct (C5_insert_out_of_range_clamps self_example T_example 25 H)
    as (out & Hout & Hv & _).
  exists out. split; [exact Hout|exact Hv].
Defined.

(** The claim says these calls fail; they return a series.  Index 25 is
    above [len(T_example) = 11] and appends; index -1 is negative and
    inserts before the last row. *)
Lemma C5_insert_out_of_range_counterexample :
  Z.of_nat (length T_example) < 25
  /\ insert self_example T_example (Some 25)
       = Ok (mkSeries (values T_example ++ values (anomaly self_example)))
  /\ insert self_example T_example (Some (-1))
       = Ok (mkSeries (take 10 (values T_example)
                       ++ values (anomaly self_example)
                       ++ drop 10 (values T_example)))
  /\ is_ok (insert self_example T_example (Some 25)) = true
  /\ is_ok (insert self_example T_example (Some (-1))) = true.
Proof. repeat split; vm_compute; reflexivity. Qed.

(** The claim says the empty template fails; the anomaly is the empty
    series. *)
Lemma C6_AmplitudeShiftAnomaly_empty_counterexample :
  init (Simple (AmplitudeShiftAnomaly (Fin (Q2Qc (1 # 3))))) [] rs_example
    = (Ok (mkAnomaly [] [] (Simple (AmplitudeShiftAnomaly (Fin (Q2Qc (1 # 3)))))),
       rs_example)
  /\ is_ok (init (Simple (AmplitudeShiftAnomaly (Fin (Q2Qc (1 # 3))))) []
              rs_example).1 = true.
Proof. split; reflexivity. Qed.

(** [count = -3]: no error, no row, no draw. *)
Lemma C7_PointAnomaly_count_domain_witness :
  -3 < 0
  /\ init (Simple (PointAnomaly (Fin (Q2Qc (1 # 2))) f0 f1 (PyInt (-3))))
       T_example rs_example
     = (Ok (mkAnomaly T_example []
              (Simple (PointAnomaly (Fin (Q2Qc (1 # 2))) f0 f1 (PyInt (-3))))),
        rs_example).
Proof.
  split; [lia|].
  exact (proj1 (C7_PointAnomaly_count_domain T_example (Fin (Q2Qc (1 # 2))) f0 f1
                  (-3) rs_example ltac:(lia))).
Defined.

(** The claim says a negative count fails; [count = -1] returns the
    empty series. *)
Lemma C7_PointAnomaly_negative_count_counterexample :
  init (Simple (PointAnomaly (Fin (Q2Qc (1 # 2))) f0 f1 (PyInt (-1))))
    T_example rs_example
    = (Ok (mkAnomaly T_example []
             (Simple (PointAnomaly (Fin (Q2Qc (1 # 2))) f0 f1 (PyInt (-1))))),
       rs_example)
  /\ is_ok (init (Simple (PointAnomaly (Fin (Q2Qc (1 # 2))) f0 f1 (PyInt (-1))))
              T_example rs_example).1 = true.
Proof. split; reflexivity. Qed.

(** From the store [w_example], [RangeShiftAnomaly(t, ratio=0.5)] on the
    template at reference 1 returns a new instance at reference 2 and the
    template object is as it was; [insert] into the template then returns
    a new series and leaves the instance as it was. *)
Lemma C10_operations_leave_inputs_unchanged_witness :
  let call := Simple (RangeShiftAnomaly (Fin (Q2Qc (1 # 2)))) in
  let w1 := (Heap.init call 1%positive w_example).2 in
  (Heap.init call 1%positive w_example).1 = Ok 2%positive
  /\ Heap.heap w_example !! 2%positive = None
  /\ Heap.heap w1 !! 1%positive = Some (Heap.OSeries T_example)
  /\ is_ok (Heap.insert 2%positive 1%positive (Some 5) w1).1 = true
  /\ Heap.heap (Heap.insert 2%positive 1%positive (Some 5) w1).2 !! 2%positive
       = Heap.heap w1 !! 2%positive
  /\ is_Some (Heap.heap w1 !! 2%positive).
Proof.
  intros call w1.
  assert (Hrun : (Heap.init call 1%positive w_example).1 = Ok 2%positive)
    by (vm_compute; reflexivity).
  destruct (C10_operations_leave_inputs_unchanged w_example call
              1%positive 2%positive 1%positive None)
    as (Hsame & Hnew & _).
  split; [exact Hrun|]. split; [exact (Hnew _ Hrun)|].
  split; [apply Hsame; vm_compute; reflexivity|].
  split; [vm_compute; reflexivity|].
  assert (Hinst : is_Some (Heap.heap w1 !! 2%positive))
    by (vm_compute; eauto).
  split; [|exact Hinst]. destruct Hinst as [o Ho].
  destruct (C10_operations_leave_inputs_unchanged w1 call
              1%positive 2%positive 1%positive (Some 5))
    as (_ & _ & Hsame' & _).
  rewrite Ho. exact (Hsame' _ _ Ho).
Defined.

(* ===================================================================== *)
(** * NoisyAnomaly *)
(* ===================================================================== *)

Section NoisyFacts.
Implicit Types (T : Series) (noise : list float).

Lemma labels_zip_with_add T noise :
  length T = length noise ->
  labels (zip_with (fun row x => (row.1, fadd row.2 x)) T noise) = labels T.
Proof.
  revert noise. induction T as [|row T IH]; intros [|x noise] Hlen;
    simplify_eq/=; [done|]. f_equal. by apply IH.
Qed.

Lemma values_zip_with_add T noise :
  values (zip_with (fun row x => (row.1, fadd row.2 x)) T noise)
    = zip_with fadd (values T) noise.
Proof.
  revert noise. induction T as [|row T IH]; intros [|x noise]; simpl; [done..|].
  f_equal. apply IH.
Qed.

Lemma draws_lookup rs mu sigma n i :
  (i < n)%nat -> (draw rs mu sigma <$> seq 0 n) !! i = Some (draw rs mu sigma i).
Proof. intros Hi. by rewrite list_lookup_fmap, lookup_seq_lt. Qed.

(** The method with a scale that is not negative. *)
Lemma NoisyAnomaly_generate_ok T mu sigma rs :
  flt sigma f0 = false ->
  NoisyAnomaly_generate T mu sigma rs
    = (Ok (zip_with (fun row x => (row.1, fadd row.2 x)) T
             (draw rs mu sigma <$> seq 0 (length T))),
       advance rs (length T)).
Proof.
  intros Hsigma. unfold NoisyAnomaly_generate, mbind, Py_bind.
  rewrite normal_ok by done. unfold lift, sadd_array.
  by rewrite bool_decide_eq_true_2 by (by rewrite length_fmap, length_seq).
Qed.
End NoisyFacts.




(* ===================================================================== *)
(** * max and min under a scale and under a shift *)
(* ===================================================================== *)

Section Extremes.
Local Open Scope Qc_scope.
Implicit Types (a b c r : Qc) (s : Series).

Lemma Qcmax_plus a b c : Qcmax a b + c = Qcmax (a + c) (b + c).
Proof.
  unfold Qcmax. destruct (decide (a < b)) as [H|H], (decide (a + c < b + c)) as [H'|H'];
    try done.
  - by apply (Qcplus_lt_mono_r a b c) in H.
  - by apply (Qcplus_lt_mono_r a b c) in H'.
Qed.

Lemma Qcmin_plus a b c : Qcmin a b + c = Qcmin (a + c) (b + c).
Proof.
  unfold Qcmin. destruct (decide (b < a)) as [H|H], (decide (b + c < a + c)) as [H'|H'];
    try done.
  - by apply (Qcplus_lt_mono_r b a c) in H.
  - by apply (Qcplus_lt_mono_r b a c) in H'.
Qed.

Lemma Qcmult_le_nonpos a b r : r <= 0 -> a <= b -> b * r <= a * r.
Proof.
  intros Hr Hab.
  assert (Hr' : 0 <= - r).
  { apply Qcle_minus_iff in Hr. by rewrite Qcplus_0_l in Hr. }
  assert (H : a * - r <= b * - r) by (by apply Qcmult_le_compat_r).
  apply Qcle_minus_iff in H. apply Qcle_minus_iff.
  by replace (a * r + - (b * r)) with (b * - r + - (a * - r)) by ring.
Qed.

Lemma Qcmax_mult_nonneg a b r : 0 <= r -> Qcmax a b * r = Qcmax (a * r) (b * r).
Proof.
  intros Hr. unfold Qcmax.
  destruct (decide (a < b)) as [H|H], (decide (a * r < b * r)) as [H'|H']; try done.
  - apply Qcle_antisym; [by apply Qcnot_lt_le|].
    apply Qcmult_le_compat_r; [by apply Qclt_le_weak|done].
  - apply Qcnot_lt_le in H. apply Qclt_not_le in H'. destruct H'.
    by apply Qcmult_le_compat_r.
Qed.

Lemma Qcmin_mult_nonneg a b r : 0 <= r -> Qcmin a b * r = Qcmin (a * r) (b * r).
Proof.
  intros Hr. unfold Qcmin.
  destruct (decide (b < a)) as [H|H], (decide (b * r < a * r)) as [H'|H']; try done.
  - apply Qcle_antisym; [|by apply Qcnot_lt_le].
    apply Qcmult_le_compat_r; [by apply Qclt_le_weak|done].
  - apply Qcnot_lt_le in H. apply Qclt_not_le in H'. destruct H'.
    by apply Qcmult_le_compat_r.
Qed.

Lemma Qcmax_mult_nonpos a b r : r <= 0 -> Qcmax a b * r = Qcmin (a * r) (b * r).
Proof.
  intros Hr. unfold Qcmax, Qcmin.
  destruct (decide (a < b)) as [H|H], (decide (b * r < a * r)) as [H'|H']; try done.
  - apply Qcle_antisym; [|by apply Qcnot_lt_le].
    apply Qcmult_le_nonpos; [done|by apply Qclt_le_weak].
  - apply Qcnot_lt_le in H. apply Qclt_not_le in H'. destruct H'.
    by apply Qcmult_le_nonpos.
Qed.

Lemma Qcmin_mult_nonpos a b r : r <= 0 -> Qcmin a b * r = Qcmax (a * r) (b * r).
Proof.
  intros Hr. unfold Qcmax, Qcmin.
  destruct (decide (b < a)) as [H|H], (decide (a * r < b * r)) as [H'|H']; try done.
  - apply Qcle_antisym; [by apply Qcnot_lt_le|].
    apply Qcmult_le_nonpos; [done|by apply Qclt_le_weak].
  - apply Qcnot_lt_le in H. apply Qclt_not_le in H'. destruct H'.
    by apply Qcmult_le_nonpos.
Qed.

(** A reduction commutes with a map that commutes with its operator. *)
Lemma foldl_morph (f : Qc -> Qc) (op op' : Qc -> Qc -> Qc) :
  (forall a b, f (op a b) = op' (f a) (f b)) ->
  forall qs q, f (foldl op q qs) = foldl op' (f q) (f <$> qs).
Proof.
  intros Hf. induction qs as [|x qs IH]; intros q; simpl; [done|].
  by rewrite IH, Hf.
Qed.

Lemma reduce_morph (f : Qc -> Qc) (op op' : Qc -> Qc -> Qc) s s' :
  (forall a b, f (op a b) = op' (f a) (f b)) ->
  dropna s' = f <$> dropna s ->
  reduce op' s' = match reduce op s with Fin m => Fin (f m) | NaN => NaN end.
Proof.
  intros Hf Hs. unfold reduce. rewrite Hs.
  destruct (dropna s) as [|q qs]; simpl; [done|].
  by rewrite (foldl_morph f op op').
Qed.

Lemma dropna_smul s r : dropna (smul s (Fin r)) = (fun q => q * r) <$> dropna s.
Proof.
  unfold dropna, smul. induction s as [|[l [q|]] s IH]; [done|..].
  - cbn [fmap list_fmap omap list_omap snd fst fmul fadd fbinop]. f_equal. exact IH.
  - exact IH.
Qed.

Lemma dropna_sadd s c : dropna (sadd s (Fin c)) = (fun q => q + c) <$> dropna s.
Proof.
  unfold dropna, sadd. induction s as [|[l [q|]] s IH]; [done|..].
  - cbn [fmap list_fmap omap list_omap snd fst fmul fadd fbinop]. f_equal. exact IH.
  - exact IH.
Qed.

Lemma dropna_sadd_NaN s : dropna (sadd s NaN) = [].
Proof.
  unfold dropna, sadd. induction s as [|[l [q|]] s IH]; [done|exact IH..].
Qed.

(** [max] and [min] are both NaN or both numbers, the first at most the
    second. *)
Lemma smin_smax_cases s :
  (smin s = NaN /\ smax s = NaN /\ dropna s = [])
  \/ exists m M, smin s = Fin m /\ smax s = Fin M /\ m <= M
       /\ forall x, x ∈ dropna s -> m <= x <= M.
Proof.
  destruct (dropna s) as [|q qs] eqn:E.
  - left. unfold smin, smax, reduce. by rewrite E.
  - right. assert (Hq : q ∈ dropna s) by (rewrite E; left).
    destruct (smin_spec s q Hq) as (m & Hm & Hmin & Hlb).
    destruct (smax_spec s q Hq) as (M & HM & Hmax & Hub).
    exists m, M. split; [done|]. split; [done|]. split.
    + apply Qcle_trans with q; auto.
    + intros x Hx. rewrite <-E in Hx. auto.
Qed.
End Extremes.

(* ===================================================================== *)
(** * RangeShiftAnomaly and AmplitudeShiftAnomaly: range and composition *)
(* ===================================================================== *)

Section ShiftFacts.
Implicit Types (T : Series) (r a : Qc).

Lemma smax_smul_nonneg T r : (0 <= r)%Qc ->
  smax (smul T (Fin r)) = fmul (smax T) (Fin r)
  /\ smin (smul T (Fin r)) = fmul (smin T) (Fin r).
Proof.
  intros Hr. unfold smax, smin. split.
  - rewrite (reduce_morph (fun q => q * r)%Qc Qcmax Qcmax T);
      [by destruct (reduce Qcmax T)| |apply dropna_smul].
    intros x y. by apply Qcmax_mult_nonneg.
  - rewrite (reduce_morph (fun q => q * r)%Qc Qcmin Qcmin T);
      [by destruct (reduce Qcmin T)| |apply dropna_smul].
    intros x y. by apply Qcmin_mult_nonneg.
Qed.

Lemma smax_smul_nonpos T r : (r <= 0)%Qc ->
  smax (smul T (Fin r)) = fmul (smin T) (Fin r)
  /\ smin (smul T (Fin r)) = fmul (smax T) (Fin r).
Proof.
  intros Hr. unfold smax, smin. split.
  - rewrite (reduce_morph (fun q => q * r)%Qc Qcmin Qcmax T);
      [by destruct (reduce Qcmin T)| |apply dropna_smul].
    intros x y. by apply Qcmin_mult_nonpos.
  - rewrite (reduce_morph (fun q => q * r)%Qc Qcmax Qcmin T);
      [by destruct (reduce Qcmax T)| |apply dropna_smul].
    intros x y. by apply Qcmax_mult_nonpos.
Qed.

Lemma smax_sadd T (shift : float) :
  smax (sadd T shift) = fadd (smax T) shift
  /\ smin (sadd T shift) = fadd (smin T) shift.
Proof.
  destruct shift as [c|].
  - unfold smax, smin. split.
    + rewrite (reduce_morph (fun q => q + c)%Qc Qcmax Qcmax T);
        [by destruct (reduce Qcmax T)| |apply dropna_sadd].
      intros x y. apply Qcmax_plus.
    + rewrite (reduce_morph (fun q => q + c)%Qc Qcmin Qcmin T);
        [by destruct (reduce Qcmin T)| |apply dropna_sadd].
      intros x y. apply Qcmin_plus.
  - unfold smax, smin, reduce. rewrite dropna_sadd_NaN.
    split; by destruct (dropna T).
Qed.

(** Two series with the same labels and pointwise related values. *)
Lemma series_fmap_ext (f g : float -> float) T :
  (forall x, f x = g x) ->
  (fun row : Z * float => (row.1, f row.2)) <$> T
    = (fun row : Z * float => (row.1, g row.2)) <$> T.
Proof. intros H. apply list_fmap_ext. intros _ row _. by rewrite H. Qed.

Lemma smul_smul T (x y : float) : smul (smul T x) y = smul T (fmul x y).
Proof.
  unfold smul. rewrite <-list_fmap_compose. apply list_fmap_ext.
  intros _ [l v] _. simpl. f_equal.
  destruct v as [v|], x as [x|], y as [y|]; simpl; try done.
  by rewrite Qcmult_assoc.
Qed.

Lemma sadd_sadd T (x y z : float) :
  (forall v, fadd (fadd v x) y = fadd v z) -> sadd (sadd T x) y = sadd T z.
Proof.
  intros H. unfold sadd. rewrite <-list_fmap_compose. apply list_fmap_ext.
  intros _ [l v] _. simpl. by rewrite H.
Qed.
End ShiftFacts.







(* ===================================================================== *)
(** * PointAnomaly: where the points lie, and the scale check *)
(* ===================================================================== *)

Section BoundFacts.
Local Open Scope Qc_scope.
Implicit Types (x m M d : Qc).

Lemma Qcle_plus_nonneg x M d : x <= M -> 0 <= d -> x <= M + d.
Proof.
  intros HxM Hd. rewrite <-(Qcplus_0_r x). by apply Qcplus_le_compat.
Qed.

Lemma Qcle_minus_nonneg x m d : m <= x -> 0 <= d -> m - d <= x.
Proof.
  intros Hmx Hd. apply Qcle_trans with m; [|done].
  apply Qcle_minus_iff. by replace (m + - (m - d)) with d by ring.
Qed.

Lemma Qclt_plus_pos x M d : x <= M -> 0 < d -> x < M + d.
Proof.
  intros HxM Hd. apply Qcle_lt_trans with M; [done|].
  apply Qclt_minus_iff. by replace (M + d + - M) with d by ring.
Qed.

Lemma Qclt_minus_pos x m d : m <= x -> 0 < d -> m - d < x.
Proof.
  intros Hmx Hd. apply Qclt_le_trans with m; [|done].
  apply Qclt_minus_iff. by replace (m + - (m - d)) with d by ring.
Qed.

Lemma Qcminus_nonneg m M : m <= M -> 0 <= M - m.
Proof. intros H. by apply Qcle_minus_iff in H. Qed.

Lemma Qcminus_pos m M : m < M -> 0 < M - m.
Proof. intros H. by apply Qclt_minus_iff in H. Qed.
End BoundFacts.


(** X11. With a real [sigma < 0] and an integer [count], [PointAnomaly]
    fails if and only if [count >= 1]: the first iteration raises the
    [ValueError] of [np.random.normal]; with [count <= 0] the loop never
    runs, the scale is never looked at and the anomaly is empty. *)
Theorem X11_PointAnomaly_negative_sigma (T : Series) (ratio mu : float)
    (sigma : Qc) (count : Z) (rs : RandomState) :
  (sigma < 0)%Qc ->
  (is_ok (init (Simple (PointAnomaly ratio mu (Fin sigma) (PyInt count))) T rs).1
     = false <-> 1 <= count)
  /\ (init (Simple (PointAnomaly ratio mu (Fin sigma) (PyInt count))) T rs
        = (Raise ValueError, rs) <-> 1 <= count)
  /\ (init (Simple (PointAnomaly ratio mu (Fin sigma) (PyInt count))) T rs
        = (Ok (mkAnomaly T [] (Simple (PointAnomaly ratio mu (Fin sigma) (PyInt count)))),
           rs) <-> count <= 0).
Proof.
  intros Hsigma. rewrite init_generate. cbn [generate Stage_anomaly].
  assert (Hneg : flt (Fin sigma) f0 = true)
    by (unfold flt, f0; by rewrite bool_decide_eq_true_2).
  destruct (Z_lt_le_dec 0 count) as [Hpos|Hnpos].
  - rewrite PointAnomaly_negative_sigma by done.
    repeat split; intros; try done; lia.
  - assert (Hrun : PointAnomaly_generate T ratio mu (Fin sigma) (PyInt count) rs
                   = (Ok [], rs)).
    { unfold PointAnomaly_generate, mbind, Py_bind, lift, py_range.
      by replace (Z.to_nat count) with 0%nat by lia. }
    rewrite Hrun. repeat split; intros; try done; lia.
Qed.

(* ===================================================================== *)
(** * FrequencyShiftAnomaly: strides *)
(* ===================================================================== *)

Section StrideFacts.
Context {A : Type}.
Implicit Types (l : list A) (k : nat).

Lemma every_every k1 k2 l : (1 <= k1)%nat -> (1 <= k2)%nat ->
  every k2 0 (every k1 0 l) = every (k1 * k2) 0 l.
Proof.
  intros H1 H2. apply list_eq. intros i.
  rewrite !every_lookup by lia. f_equal. lia.
Qed.

Lemma every_sublist k l : forall skip, every k skip l `sublist_of` l.
Proof.
  induction l as [|x l IH]; intros skip; simpl; [done|].
  destruct skip.
  - by apply sublist_skip.
  - by apply sublist_cons.
Qed.
End StrideFacts.

Lemma Qfloor_inv_half (r : Qc) :
  (Q2Qc (1 # 2) < r)%Qc -> (r <= 1)%Qc -> Qfloor (/ r)%Qc = 1.
Proof.
  intros Hhalf Hle.
  assert (Hpos : (0 < r)%Qc) by (by apply Qclt_trans with (Q2Qc (1 # 2))).
  pose proof (stride_ge_1 r Hpos Hle) as Hge.
  assert (Hlt2 : (/ r < Q2Qc 2)%Qc).
  { apply (Qcmult_lt_mono_pos_r _ _ r Hpos).
    rewrite Qcmult_inv_l by (intros ->; by apply (Qclt_not_eq 0 0)%Qc).
    apply (Qcmult_lt_mono_pos_l _ _ (Q2Qc 2)) in Hhalf; [|done].
    by replace (Q2Qc 2 * Q2Qc (1 # 2))%Qc with 1%Qc in Hhalf
      by (apply Qc_is_canon; reflexivity). }
  assert (Hfl : Qfloor (/ r)%Qc < 2).
  { rewrite Zlt_Qlt. apply Qle_lt_trans with (/ r)%Qc; [apply Qfloor_le|].
    exact Hlt2. }
  lia.
Qed.

(** X12. A ratio above one half does not subsample.  For every real ratio
    with [1/2 < ratio <= 1] the stride [int(1/ratio)] is 1 and the anomaly
    of [FrequencyShiftAnomaly] has all the values of the template, in
    order, under the default index. *)
Theorem X12_FrequencyShiftAnomaly_above_half_keeps_all (T : Series) (r : Qc)
    (rs : RandomState) :
  (Q2Qc (1 # 2) < r)%Qc -> (r <= 1)%Qc ->
  Qfloor (1 / r)%Qc = 1
  /\ init (Simple (FrequencyShiftAnomaly (Fin r))) T rs
       = (Ok (mkAnomaly T (reset_index T) (Simple (FrequencyShiftAnomaly (Fin r)))), rs)
  /\ values (reset_index T) = values T.
Proof.
  intros Hhalf Hle.
  assert (Hpos : (0 < r)%Qc) by (by apply Qclt_trans with (Q2Qc (1 # 2))).
  pose proof (Qfloor_inv_half r Hhalf Hle) as Hk.
  split; [|split].
  - unfold Qcdiv. by rewrite Qcmult_1_l.
  - rewrite init_generate. cbn [generate Stage_anomaly].
    rewrite FrequencyShiftAnomaly_in_range, Hk by done.
    change (Z.to_nat 1) with 1%nat. by rewrite every_1.
  - apply values_reset_index.
Qed.



(* ===================================================================== *)
(** * CompoundAnomaly: concatenation, failure, and the generator *)
(* ===================================================================== *)

(** X15. Pipelines concatenate: running the stages [s1 ++ s2] on [T] is
    running [s1] on [T] and then [s2] on what [s1] generated, with the
    generator threaded through; if [s1] raises, [s2] is not run. *)
Theorem X15_CompoundAnomaly_concatenates (T : Series) (s1 s2 : list Stage)
    (rs : RandomState) :
  generate (CompoundAnomaly (s1 ++ s2)) T rs
    = (generate (CompoundAnomaly s1) T
         ≫= fun a => generate (CompoundAnomaly s2) a) rs.
Proof.
  cbn [generate]. unfold CompoundAnomaly_generate.
  revert T rs. induction s1 as [|kind s1 IH]; intros T rs; [done|].
  cbn [app CompoundAnomaly_loop]. rewrite bind_assoc.
  apply bind_ext. intros a rs'. apply IH.
Qed.

Lemma CompoundAnomaly_loop_app s1 s2 T rs :
  CompoundAnomaly_loop (s1 ++ s2) T rs
    = match CompoundAnomaly_loop s1 T rs with
      | (Ok a, rs') => CompoundAnomaly_loop s2 a rs'
      | (Raise e, rs') => (Raise e, rs')
      end.
Proof.
  revert T rs. induction s1 as [|kind s1 IH]; intros T rs; [done|].
  cbn [app CompoundAnomaly_loop]. unfold mbind, Py_bind.
  destruct (Stage_anomaly kind T rs) as [[a|e] rs']; [apply IH|done].
Qed.

(** X16. A pipeline stops at its first failing stage: when the stages
    before an entry generate [a] and the entry raises [e] on [a], the
    whole pipeline raises [e], with the generator as that entry left it;
    the entries after it are not run. *)
Theorem X16_CompoundAnomaly_stops_at_first_failure (T a : Series)
    (s1 s2 : list Stage) (kind : Stage) (e : PyExc) (rs rs1 rs2 : RandomState) :
  generate (CompoundAnomaly s1) T rs = (Ok a, rs1) ->
  Stage_anomaly kind a rs1 = (Raise e, rs2) ->
  generate (CompoundAnomaly (s1 ++ kind :: s2)) T rs = (Raise e, rs2).
Proof.
  cbn [generate]. unfold CompoundAnomaly_generate. intros H1 Hkind.
  rewrite CompoundAnomaly_loop_app, H1. cbn [CompoundAnomaly_loop].
  unfold mbind, Py_bind. by rewrite Hkind.
Qed.

Lemma Stage_anomaly_no_noise kind T :
  draws_noise kind = false ->
  exists r : result Series, forall rs', Stage_anomaly kind T rs' = (r, rs').
Proof.
  destruct kind as [| ratio | ratio | | ratio]; intros Hkind; try done.
  - by eexists.
  - by eexists.
  - exists (Stage_anomaly (FrequencyShiftAnomaly ratio) T (mkRandomState (fun _ => Q2Qc 0) 0)).1.
    intros rs'. cbn [Stage_anomaly].
    rewrite !HeapRefinement.FrequencyShiftAnomaly_run.
    destruct (flt f0 ratio && fle ratio f1); [|done].
    destruct (fdiv f1 ratio) as [q|]; [|done].
    destruct (py_int q) as [k|]; [|done].
    by destruct (iloc_step T k).
Qed.

(** X17. A pipeline without [NoisyAnomaly] and [PointAnomaly] entries
    never touches the random generator: it leaves the generator as it
    found it and its outcome is the same from every generator state. *)
Theorem X17_CompoundAnomaly_without_noise_is_deterministic (T : Series)
    (stages : list Stage) (rs : RandomState) :
  Forall (fun kind => draws_noise kind = false) stages ->
  (generate (CompoundAnomaly stages) T rs).2 = rs
  /\ forall rs' : RandomState,
       (generate (CompoundAnomaly stages) T rs').1
         = (generate (CompoundAnomaly stages) T rs).1.
Proof.
  cbn [generate]. unfold CompoundAnomaly_generate. intros Hstages.
  assert (H : exists r, forall rs', CompoundAnomaly_loop stages T rs' = (r, rs')).
  { revert T. induction Hstages as [|kind rest Hkind _ IH]; intros T.
    - by eexists.
    - destruct (Stage_anomaly_no_noise kind T Hkind) as [[a|e] Hr].
      + destruct (IH a) as [r' Hr']. exists r'. intros rs'.
        cbn [CompoundAnomaly_loop]. unfold mbind, Py_bind. by rewrite Hr, Hr'.
      + exists (Raise e). intros rs'.
        cbn [CompoundAnomaly_loop]. unfold mbind, Py_bind. by rewrite Hr. }
  destruct H as [r Hr]. split; [by rewrite Hr|].
  intros rs'. by rewrite !Hr.
Qed.

(* ===================================================================== *)
(** * insert: the ends, and the host rows *)
(* ===================================================================== *)

(** X18. [index = len(host)] gives what [index=None] gives (the anomaly
    appended), and [index = 0] puts the anomaly before the host. *)
Theorem X18_insert_at_the_ends (self : Anomaly) (h : Series) :
  insert self h (Some (Z.of_nat (length h))) = insert self h None
  /\ exists out : Series,
       insert self h (Some 0) = Ok out
       /\ values out = values (anomaly self) ++ values h.
Proof.
  split.
  - unfold insert, iloc_to, iloc_from, concat_ignore_index.
    rewrite slice_bound_in_range by lia. rewrite Nat2Z.id.
    rewrite take_ge, drop_ge by done. simpl. by rewrite !app_nil_r.
  - destruct (insert_Some self h 0) as (out & Hout & Hv & _).
    exists out. split; [done|]. rewrite Hv.
    by rewrite slice_bound_in_range by lia.
Qed.

(** X19. Whatever the index (in range or not, negative or not), [insert]
    keeps every host row in order: the result is the host cut at one
    position [j <= len(host)] with the anomaly in between, so taking the
    [len(anomaly)] rows at [j] out of the result gives back the host. *)
Theorem X19_insert_keeps_host_rows (self : Anomaly) (h : Series) (i : Z) :
  exists (out : Series) (j : nat),
    insert self h (Some i) = Ok out
    /\ (j <= length h)%nat
    /\ take (length (anomaly self)) (drop j (values out)) = values (anomaly self)
    /\ take j (values out) ++ drop (j + length (anomaly self)) (values out)
         = values h.
Proof.
  destruct (insert_Some self h i) as (out & Hout & Hv & _).
  pose proof (slice_bound_le (length h) i) as Hj.
  exists out, (slice_bound (length h) i).
  set (j := slice_bound (length h) i) in *.
  assert (Hlen : length (take j (values h)) = j)
    by (rewrite length_take, length_values; lia).
  split; [done|]. split; [done|]. rewrite Hv. split.
  - rewrite drop_app_length' by done.
    by rewrite take_app_length' by (by rewrite length_values).
  - rewrite take_app_length' by done.
    rewrite <-drop_drop, drop_app_length' by done.
    rewrite drop_app_length' by (by rewrite length_values).
    apply take_drop.
Qed.

(* ===================================================================== *)
(** * plot *)
(* ===================================================================== *)

(** X20. What [plot] hands to matplotlib: first the values of the
    template at x = 0, ..., n-1, then the values of the anomaly at
    x = n, ..., n+m-1, for a template of [n] rows and an anomaly of [m]:
    the anomaly is drawn right after the template, whatever labels the
    two series carried. *)
Theorem X20_plot_segments (self : Anomaly) :
  let n := length (template self) in
  let m := length (anomaly self) in
  values (plot self).1 = values (template self)
  /\ labels (plot self).1 = range_index n
  /\ values (plot self).2 = values (anomaly self)
  /\ labels (plot self).2 = (fun i => Z.of_nat (n + i)) <$> seq 0 m.
Proof.
  intros n m. unfold plot. fold n. cbn [fst snd].
  set (combined := concat_ignore_index [template self; anomaly self]).
  assert (Hv : values combined = values (template self) ++ values (anomaly self)).
  { unfold combined. rewrite values_concat_ignore_index. simpl.
    by rewrite app_nil_r. }
  assert (Hl : labels combined = range_index (n + m)).
  { unfold combined, concat_ignore_index. rewrite labels_reset_index.
    simpl. by rewrite app_nil_r, length_app. }
  assert (Hn : n = length (values (template self))) by (by rewrite length_values).
  unfold values, labels in *. rewrite !fmap_take, !fmap_drop, Hv, Hl.
  split; [by apply take_app_length'|].
  split; [|split; [by apply drop_app_length'|]].
  - unfold range_index. rewrite <-fmap_take, take_seq. do 2 f_equal. lia.
  - unfold range_index. rewrite <-fmap_drop, drop_seq.
    replace (n + m - n)%nat with m by lia.
    replace (0 + n)%nat with (n + 0)%nat by lia.
    rewrite <-(fmap_add_seq n 0 m), <-list_fmap_compose. done.
Qed.

(* ===================================================================== *)
(** * __str__ of a compound anomaly *)
(* ===================================================================== *)

Lemma py_join_class_names_inj (st : list Stage) : forall st' : list Stage,
  py_join ", " (py_repr <$> (class_name <$> st)) +:+ "]"
    = py_join ", " (py_repr <$> (class_name <$> st')) +:+ "]" ->
  class_name <$> st = class_name <$> st'.
Proof.
  induction st as [|k st IH]; intros [|k' st'] H; [done|..].
  - destruct st' as [|k2 st'], k'; simpl in H; discriminate H.
  - destruct st as [|k2 st], k; simpl in H; discriminate H.
  - destruct st as [|k2 st], st' as [|k2' st'].
    + by destruct k, k'; simpl in H; try discriminate H.
    + destruct k, k'; simpl in H; discriminate H.
    + destruct k, k'; simpl in H; discriminate H.
    + rewrite !fmap_cons. rewrite !fmap_cons in IH.
      destruct k, k'; cbn [fmap list_fmap py_join class_name py_repr] in H;
        simpl in H; try discriminate H;
        injection H as H; f_equal; apply (IH (k2' :: st')); exact H.
Qed.

(** X21. The display of a compound anomaly shows the classes of its
    entries, in pipeline order, and nothing else: two compound anomalies
    have the same [__str__] exactly when their entries have the same
    classes in the same order, whatever the keyword arguments are. *)
Theorem X21_CompoundAnomaly_str_shows_the_classes (st st' : list Stage) :
  CompoundAnomaly_str st = CompoundAnomaly_str st'
  <-> class_name <$> st = class_name <$> st'.
Proof.
  split.
  - unfold CompoundAnomaly_str, py_str_list. intros H. simpl in H.
    injection H as H. by apply py_join_class_names_inj.
  - unfold CompoundAnomaly_str. by intros ->.
Qed.

(* ===================================================================== *)
(** * The object store: an instance owns its series *)
(* ===================================================================== *)

(** X25. [insert] never fails and never loses a row: for every index,
    [None] included, the result has [len(host) + len(anomaly)] rows under
    the default index 0, 1, 2, ..., whatever labels the host and the
    anomaly carried. *)
Theorem X25_insert_total (self : Anomaly) (h : Series) (index : option Z) :
  exists out : Series,
    insert self h index = Ok out
    /\ length out = (length h + length (anomaly self))%nat
    /\ labels out = range_index (length h + length (anomaly self)).
Proof.
  destruct index as [i|].
  - destruct (insert_Some self h i) as (out & Hout & _ & Hlen & Hlab).
    exists out. by rewrite <-Hlen.
  - destruct (insert_None self h) as (out & Hout & _ & Hlen & Hlab).
    exists out. by rewrite <-Hlen.
Qed.

Lemma pairs_NaN (mu sigma : float) (n : nat) : forall rs,
  Forall (fun x => x = NaN) (pairs NaN NaN mu sigma rs n).
Proof.
  induction n as [|n IH]; intros rs; [constructor|].
  rewrite pairs_S. apply Forall_app. split; [|apply IH].
  by repeat constructor.
Qed.


Module HeapOwnership.
Import Heap HeapFacts HeapRefinement.

Section FreshRules.
Implicit Types (w : World) (l x : loc).

Lemma lookup_None_sub (h0 h : gmap loc obj) l :
  h0 ⊆ h -> h !! l = None -> h0 !! l = None.
Proof.
  intros Hsub Hl. destruct (h0 !! l) as [o|] eqn:E; [|done].
  by rewrite (lookup_weaken _ _ _ _ E Hsub) in Hl.
Qed.

Lemma sub_others (h0 h h' : gmap loc obj) self :
  h0 ⊆ h -> h0 !! self = None ->
  (forall l, l <> self -> h' !! l = h !! l) -> h0 ⊆ h'.
Proof.
  intros Hsub Hself Hoth. apply map_subseteq_spec. intros l o Hl.
  rewrite Hoth by (intros ->; congruence). by eapply lookup_weaken.
Qed.

Lemma fresh_result_fresh_or x (m : HPy loc) : fresh_result m -> fresh_or x m.
Proof. intros Hm w r Hr. right. by apply Hm. Qed.

Lemma fresh_or_ret x : fresh_or x (mret x).
Proof. intros w r [= <-]. by left. Qed.

Lemma fresh_or_bind {A} x (m : HPy A) (k : A -> HPy loc) :
  mono m -> (forall a, fresh_or x (k a)) -> fresh_or x (m ≫= k).
Proof.
  intros Hm Hk w r Hr. apply bind_Ok_inv in Hr as (a & _ & Hr).
  destruct (Hk a _ _ Hr) as [->|Hfresh]; [by left|right].
  eapply lookup_None_sub; [apply Hm|done].
Qed.

(** Binding a new object to a computation that returns it or a newer
    one. *)
Lemma fresh_result_bind_new (m : HPy loc) (k : loc -> HPy loc) :
  mono m -> fresh_result m -> (forall x, fresh_or x (k x)) ->
  fresh_result (m ≫= k).
Proof.
  intros Hmono Hm Hk w r Hr. apply bind_Ok_inv in Hr as (x & Hx & Hr).
  destruct (Hk x _ _ Hr) as [->|Hfresh]; [by apply Hm|].
  eapply lookup_None_sub; [apply Hmono|done].
Qed.

Lemma fresh_result_raise (e : PyExc) : fresh_result (raise e).
Proof. by intros w r. Qed.

Lemma fresh_result_op1r f l : fresh_result (op1r f l).
Proof.
  unfold op1r. apply fresh_result_bind; [apply mono_read|]. intros s.
  apply fresh_result_bind; [apply mono_lift|]. intros s'.
  apply fresh_result_alloc.
Qed.

Lemma fresh_or_PointAnomaly_loop n self point : forall anomaly,
  fresh_or anomaly (PointAnomaly_loop n self point anomaly).
Proof.
  induction n as [|n IH]; intros anomaly; cbn [PointAnomaly_loop].
  - apply fresh_or_ret.
  - apply fresh_or_bind; [apply mono_get_float|]. intros mu.
    apply fresh_or_bind; [apply mono_get_float|]. intros sigma.
    apply fresh_or_bind; [apply mono_random|]. intros noise.
    apply fresh_or_bind; [apply mono_op1r|]. intros point_anomaly.
    apply fresh_result_fresh_or, fresh_result_bind_new;
      [apply mono_concat|apply fresh_result_concat|apply IH].
Qed.

(** [_generate] of each simple class returns a new object. *)
Lemma fresh_result_Stage_generate kind self :
  fresh_result (Stage_generate kind self).
Proof.
  destruct kind; cbn [Stage_generate].
  - unfold NoisyAnomaly_generate, copy, len.
    apply fresh_result_bind; [apply mono_get_ref|]. intros ?.
    apply fresh_result_bind; [apply mono_op1|]. intros ?.
    apply fresh_result_bind; [apply mono_get_float|]. intros ?.
    apply fresh_result_bind; [apply mono_get_float|]. intros ?.
    apply fresh_result_bind.
    { apply mono_bind; [apply mono_read|]. intros ?. apply mono_ret. }
    intros ?.
    apply fresh_result_bind; [apply mono_random|]. intros ?.
    apply fresh_result_op1r.
  - unfold RangeShiftAnomaly_generate, copy.
    apply fresh_result_bind; [apply mono_get_ref|]. intros ?.
    apply fresh_result_bind; [apply mono_op1|]. intros ?.
    apply fresh_result_bind; [apply mono_get_float|]. intros ?.
    apply fresh_result_op1.
  - unfold AmplitudeShiftAnomaly_generate, copy, max, min.
    apply fresh_result_bind; [apply mono_get_ref|]. intros ?.
    apply fresh_result_bind.
    { apply mono_bind; [apply mono_read|]. intros ?. apply mono_ret. }
    intros ?.
    apply fresh_result_bind; [apply mono_get_ref|]. intros ?.
    apply fresh_result_bind.
    { apply mono_bind; [apply mono_read|]. intros ?. apply mono_ret. }
    intros ?.
    apply fresh_result_bind; [apply mono_get_float|]. intros ?.
    apply fresh_result_bind; [apply mono_get_ref|]. intros ?.
    apply fresh_result_bind; [apply mono_op1|]. intros ?.
    apply fresh_result_op1.
  - unfold PointAnomaly_generate, max, min.
    apply fresh_result_bind; [apply mono_get_ref|]. intros ?.
    apply fresh_result_bind.
    { apply mono_bind; [apply mono_read|]. intros ?. apply mono_ret. }
    intros ?.
    apply fresh_result_bind; [apply mono_get_ref|]. intros ?.
    apply fresh_result_bind.
    { apply mono_bind; [apply mono_read|]. intros ?. apply mono_ret. }
    intros ?.
    apply fresh_result_bind; [apply mono_get_float|]. intros ?.
    apply fresh_result_bind; [apply mono_new_series|]. intros ?.
    apply fresh_result_bind_new;
      [apply mono_new_series|apply fresh_result_alloc|]. intros ?.
    apply fresh_or_bind; [apply mono_get_num|]. intros ?.
    apply fresh_or_bind; [apply mono_lift|]. intros ?.
    apply fresh_or_PointAnomaly_loop.
  - unfold FrequencyShiftAnomaly_generate.
    apply fresh_result_bind; [apply mono_get_float|]. intros x.
    destruct (flt f0 x && fle x f1); [|apply fresh_result_raise].
    apply fresh_result_bind; [apply mono_lift|]. intros ?.
    apply fresh_result_bind; [apply mono_lift|]. intros ?.
    apply fresh_result_bind; [apply mono_get_ref|]. intros ?.
    apply fresh_result_bind; [apply mono_op1r|]. intros ?.
    apply fresh_result_op1.
Qed.
End FreshRules.

Section OwnRules.
Implicit Types (w : World) (l self : loc).

Lemma wp_alloc_fresh o w (post : result loc -> World -> Prop) :
  (forall l w', heap w !! l = None -> heap w ⊆ heap w' ->
                heap w' !! l = Some o -> post (Ok l) w') ->
  wp (alloc o) w post.
Proof.
  intros H. unfold wp. simpl. apply H; simpl.
  - apply alloc_fresh.
  - apply insert_subseteq, alloc_fresh.
  - apply lookup_insert_eq.
Qed.

(** A unary pandas operation on any reference: it raises and leaves the
    world as it was, or returns a new Series object. *)
Lemma wp_op1_any f l w (post : result loc -> World -> Prop) :
  (forall e, post (Raise e) w) ->
  (forall l' w' s, heap w !! l' = None -> heap w ⊆ heap w' ->
                   heap w' !! l' = Some (OSeries s) -> post (Ok l') w') ->
  wp (op1 f l) w post.
Proof.
  intros Hraise Hok. unfold op1, new_series. apply wp_bind.
  unfold wp at 1, read. destruct (heap w !! l) as [[s|d]|]; cbn [fst snd]; [|done..].
  apply wp_alloc_fresh. eauto.
Qed.

(** A computation that only allocates and returns a new object. *)
Lemma wp_new_object (m : HPy loc) w (post : result loc -> World -> Prop) :
  mono m -> fresh_result m ->
  (forall e w', heap w ⊆ heap w' -> post (Raise e) w') ->
  (forall a w', heap w ⊆ heap w' -> heap w !! a = None -> post (Ok a) w') ->
  wp m w post.
Proof.
  intros Hmono Hfresh Hraise Hok. unfold wp.
  pose proof (Hmono w) as Hsub. pose proof (Hfresh w) as Hnew.
  destruct (m w) as [[a|e] w']; cbn [fst snd] in *; [|by apply Hraise].
  apply Hok; [done|]. by apply Hnew.
Qed.

(** A constructor call whose [_generate] only allocates and returns a
    new object. *)
Lemma new_owns _generate t args kwargs w :
  (forall self, mono (_generate self)) ->
  (forall self, fresh_result (_generate self)) ->
  "template" ∉ kwargs.*1 -> "anomaly" ∉ kwargs.*1 ->
  forall self,
    (new _generate t args kwargs w).1 = Ok self ->
    owns_new_objects w self (new _generate t args kwargs w).2.
Proof.
  intros Hmono Hfresh Hkt Hka.
  change (wp (new _generate t args kwargs) w
            (fun r w' => forall self, r = Ok self -> owns_new_objects w self w')).
  unfold new.
  apply wp_bind, wp_alloc_fresh. intros self w1 Hself0 Hsub Hself.
  pose proof Hsub as H0. clear Hsub.
  apply wp_bind. unfold BaseAnomaly_init, pdSeries, copy.
  apply wp_bind, wp_op1_any; [done|].
  intros l1 w2 s1 _ Hsub Hl1.
  assert (H0' := transitivity H0 Hsub). clear H0. carry_sub Hsub.
  apply wp_bind, wp_op1_any; [done|].
  intros lt w3 st Hltnew Hsub Hlt.
  assert (Hlt0 : heap w !! lt = None) by (by eapply lookup_None_sub).
  assert (H0 := transitivity H0' Hsub). clear H0'. carry_sub Hsub.
  apply wp_bind. eapply wp_setattr; [exact Hself|].
  intros w4 _ Hself4 Hoth.
  assert (H0' := sub_others _ _ _ _ H0 Hself0 Hoth). clear H0.
  carry_oth Hoth Hself.
  apply wp_bind, wp_op1_any; [done|].
  intros la0 w5 sa0 _ Hsub Hla0.
  assert (H0 := transitivity H0' Hsub). clear H0'. carry_sub Hsub.
  apply wp_bind. eapply wp_setattr; [exact Hself4|].
  intros w6 _ Hself6 Hoth.
  assert (H0' := sub_others _ _ _ _ H0 Hself0 Hoth). clear H0.
  carry_oth Hoth Hself4.
  apply wp_bind. eapply wp_setattr; [exact Hself6|].
  intros w7 _ Hself7 Hoth.
  assert (H0 := sub_others _ _ _ _ H0' Hself0 Hoth). clear H0'.
  carry_oth Hoth Hself6.
  apply wp_bind. eapply wp_setattr; [exact Hself7|].
  intros w8 _ Hself8 Hoth.
  assert (H0' := sub_others _ _ _ _ H0 Hself0 Hoth). clear H0.
  carry_oth Hoth Hself7.
  apply wp_bind. eapply wp_dict_update; [exact Hself8|].
  intros w9 _ Hself9 Hoth.
  assert (H0 := sub_others _ _ _ _ H0' Hself0 Hoth). clear H0'.
  carry_oth Hoth Hself8.
  apply wp_bind, wp_new_object; [apply Hmono|apply Hfresh|done|].
  intros a w10 Hsub Hanew.
  assert (Hne : lt <> a) by (intros ->; congruence).
  assert (Ha0 : heap w !! a = None) by (by eapply lookup_None_sub).
  assert (H0' := transitivity H0 Hsub). clear H0. carry_sub Hsub.
  eapply wp_setattr; [exact Hself9|].
  intros w11 _ Hself11 Hoth. carry_oth Hoth Hself9.
  apply wp_ret. intros self' [= <-].
  eexists _, lt, a, st. split; [exact Hself11|].
  split.
  { rewrite lookup_insert_ne by done.
    fold (base_dict lt la0 args kwargs). fold (init_dict lt la0 args kwargs).
    by rewrite init_dict_lookup by done. }
  split; [apply lookup_insert_eq|]. done.
Qed.

Lemma Stage_init_owns kind t w self :
  (Stage_init kind t w).1 = Ok self ->
  owns_new_objects w self (Stage_init kind t w).2.
Proof.
  destruct (kwargs_of_not_attribute kind) as [Hkt Hka].
  apply new_owns; [|apply fresh_result_Stage_generate|done..].
  intros self'. apply mono_Stage_generate.
Qed.

(** The loop of [CompoundAnomaly._generate] returns the series it was
    entered with, or a new object. *)
Lemma fresh_or_CompoundAnomaly_loop transformations : forall anomaly,
  fresh_or anomaly (CompoundAnomaly_loop transformations anomaly).
Proof.
  induction transformations as [|kind rest IH]; intros anomaly;
    cbn [CompoundAnomaly_loop]; [apply fresh_or_ret|].
  intros w r Hr. right.
  apply bind_Ok_inv in Hr as (inst & Hinst & Hr).
  pose proof (mono_Stage_init kind anomaly w) as Hsub.
  destruct (Stage_init_owns kind anomaly w inst Hinst)
    as (d & lt & la & st & Hd & _ & Hla & _ & _ & _ & _ & Hla0).
  set (w1 := (Stage_init kind anomaly w).2) in *.
  assert (Hget : get_ref inst "anomaly" w1 = (Ok la, w1)).
  { unfold get_ref, mbind, HPy_bind, getattr. by rewrite Hd, Hla. }
  unfold mbind at 1, HPy_bind at 1 in Hr. rewrite Hget in Hr.
  destruct (IH la w1 r Hr) as [->|Hfresh]; [done|].
  by eapply lookup_None_sub.
Qed.

Lemma fresh_result_CompoundAnomaly_generate self :
  fresh_result (CompoundAnomaly_generate self).
Proof.
  unfold CompoundAnomaly_generate, copy.
  apply fresh_result_bind; [apply mono_get_ref|]. intros a.
  apply fresh_result_bind_new; [apply mono_op1|apply fresh_result_op1|].
  intros anomaly.
  apply fresh_or_bind; [apply mono_get_tuple|]. intros transformations.
  apply fresh_or_CompoundAnomaly_loop.
Qed.
End OwnRules.

End HeapOwnership.

(* ===================================================================== *)
(** * Concrete runs of the further properties *)
(* ===================================================================== *)

Lemma Qcle_0_half : (0 <= Q2Qc (1 # 2))%Qc.
Proof. intros H. discriminate H. Qed.

Lemma Qclt_0_half : (0 < Q2Qc (1 # 2))%Qc.
Proof. reflexivity. Qed.

Lemma Qcle_half_1 : (Q2Qc (1 # 2) <= 1)%Qc.
Proof. intros H. discriminate H. Qed.

Lemma Qcle_m1_0 : (Q2Qc (-1) <= 0)%Qc.
Proof. intros H. discriminate H. Qed.

Lemma Qclt_m1_0 : (Q2Qc (-1) < 0)%Qc.
Proof. reflexivity. Qed.

Lemma Qclt_half_two_thirds : (Q2Qc (1 # 2) < Q2Qc (2 # 3))%Qc.
Proof. reflexivity. Qed.

Lemma Qcle_two_thirds_1 : (Q2Qc (2 # 3) <= 1)%Qc.
Proof. intros H. discriminate H. Qed.





Lemma T_example_has_10 : Qc_of_Z 10 ∈ dropna T_example.
Proof. apply (list_elem_of_lookup_2 _ 0%nat). reflexivity. Qed.

Lemma T_example_has_11 : Qc_of_Z 11 ∈ dropna T_example.
Proof. apply (list_elem_of_lookup_2 _ 1%nat). reflexivity. Qed.


(** [PointAnomaly(T_example, ratio=0.5, mu=0, sigma=-1, count=1)] raises
    [ValueError]; with [count=0] it returns the empty series. *)
Lemma X11_PointAnomaly_negative_sigma_witness :
  (Q2Qc (-1) < 0)%Qc
  /\ init (Simple (PointAnomaly (Fin (Q2Qc (1 # 2))) f0 (Fin (Q2Qc (-1))) (PyInt 1)))
       T_example rs_example = (Raise ValueError, rs_example)
  /\ init (Simple (PointAnomaly (Fin (Q2Qc (1 # 2))) f0 (Fin (Q2Qc (-1))) (PyInt 0)))
       T_example rs_example
     = (Ok (mkAnomaly T_example []
              (Simple (PointAnomaly (Fin (Q2Qc (1 # 2))) f0 (Fin (Q2Qc (-1)))
                         (PyInt 0)))), rs_example).
Proof.
  split; [exact Qclt_m1_0|]. split.
  - apply (X11_PointAnomaly_negative_sigma T_example (Fin (Q2Qc (1 # 2))) f0
             (Q2Qc (-1)) 1 rs_example Qclt_m1_0). lia.
  - apply (X11_PointAnomaly_negative_sigma T_example (Fin (Q2Qc (1 # 2))) f0
             (Q2Qc (-1)) 0 rs_example Qclt_m1_0). lia.
Defined.

(** [FrequencyShiftAnomaly(T_example, ratio=2/3)]: stride 1, every row
    kept. *)
Lemma X12_FrequencyShiftAnomaly_above_half_keeps_all_witness :
  (Q2Qc (1 # 2) < Q2Qc (2 # 3))%Qc /\ (Q2Qc (2 # 3) <= 1)%Qc
  /\ init (Simple (FrequencyShiftAnomaly (Fin (Q2Qc (2 # 3))))) T_example rs_example
     = (Ok (mkAnomaly T_example (reset_index T_example)
              (Simple (FrequencyShiftAnomaly (Fin (Q2Qc (2 # 3)))))), rs_example)
  /\ values (reset_index T_example) = values T_example.
Proof.
  split; [exact Qclt_half_two_thirds|]. split; [exact Qcle_two_thirds_1|].
  exact (proj2 (X12_FrequencyShiftAnomaly_above_half_keeps_all T_example
                  (Q2Qc (2 # 3)) rs_example Qclt_half_two_thirds Qcle_two_thirds_1)).
Defined.



(** A range shift, then a frequency shift with ratio 2, then a noise
    stage: the second stage raises [NotImplementedError] and the noise
    stage draws nothing. *)
Lemma X16_CompoundAnomaly_stops_at_first_failure_witness :
  generate (CompoundAnomaly [RangeShiftAnomaly (Fin (Q2Qc (1 # 2)))]) T_example rs_example
    = (Ok (smul T_example (Fin (Q2Qc (1 # 2)))), rs_example)
  /\ Stage_anomaly (FrequencyShiftAnomaly (of_Z 2))
       (smul T_example (Fin (Q2Qc (1 # 2)))) rs_example
     = (Raise NotImplementedError, rs_example)
  /\ generate (CompoundAnomaly [RangeShiftAnomaly (Fin (Q2Qc (1 # 2)));
                                FrequencyShiftAnomaly (of_Z 2);
                                NoisyAnomaly f0 f1]) T_example rs_example
     = (Raise NotImplementedError, rs_example).
Proof.
  assert (H1 : generate (CompoundAnomaly [RangeShiftAnomaly (Fin (Q2Qc (1 # 2)))])
                 T_example rs_example
               = (Ok (smul T_example (Fin (Q2Qc (1 # 2)))), rs_example))
    by reflexivity.
  assert (H2 : Stage_anomaly (FrequencyShiftAnomaly (of_Z 2))
                 (smul T_example (Fin (Q2Qc (1 # 2)))) rs_example
               = (Raise NotImplementedError, rs_example))
    by reflexivity.
  split; [exact H1|]. split; [exact H2|].
  exact (X16_CompoundAnomaly_stops_at_first_failure T_example _
           [RangeShiftAnomaly (Fin (Q2Qc (1 # 2)))] [NoisyAnomaly f0 f1]
           (FrequencyShiftAnomaly (of_Z 2)) NotImplementedError
           rs_example rs_example rs_example H1 H2).
Defined.

(** A range shift followed by an amplitude shift leaves the generator as
    it was. *)
Lemma X17_CompoundAnomaly_without_noise_is_deterministic_witness :
  Forall (fun kind => draws_noise kind = false)
    [RangeShiftAnomaly (Fin (Q2Qc (1 # 2))); AmplitudeShiftAnomaly (Fin (Q2Qc (1 # 3)))]
  /\ (generate (CompoundAnomaly [RangeShiftAnomaly (Fin (Q2Qc (1 # 2)));
                                 AmplitudeShiftAnomaly (Fin (Q2Qc (1 # 3)))])
        T_example rs_example).2 = rs_example.
Proof.
  assert (H : Forall (fun kind => draws_noise kind = false)
                [RangeShiftAnomaly (Fin (Q2Qc (1 # 2)));
                 AmplitudeShiftAnomaly (Fin (Q2Qc (1 # 3)))])
    by (repeat constructor).
  split; [exact H|].
  exact (proj1 (X17_CompoundAnomaly_without_noise_is_deterministic T_example _
                  rs_example H)).
Defined.


(** From the store [w_example], [RangeShiftAnomaly(t, ratio=0.5)] on the
    template at reference 1: the instance refers to a Series object with
    the rows of [T_example] and to one with the rows of [self_example]. *)
Lemma init_refines_witness :
  let call := Simple (RangeShiftAnomaly (Fin (Q2Qc (1 # 2)))) in
  Heap.heap w_example !! 1%positive = Some (Heap.OSeries T_example)
  /\ exists self w' (d : gmap string Heap.value) lt la,
       Heap.init call 1%positive w_example = (Ok self, w')
       /\ Heap.rng w' = rs_example
       /\ Heap.heap w' !! self = Some (Heap.OInstance d)
       /\ d !! "template" = Some (Heap.VRef lt)
       /\ Heap.heap w' !! lt = Some (Heap.OSeries T_example)
       /\ d !! "anomaly" = Some (Heap.VRef la)
       /\ Heap.heap w' !! la = Some (Heap.OSeries (anomaly self_example)).
Proof.
  intros call.
  assert (H : Heap.heap w_example !! 1%positive = Some (Heap.OSeries T_example))
    by reflexivity.
  split; [exact H|].
  exact (HeapRefinement.init_refines call 1%positive T_example w_example H).
Defined.

(** In a store with [T_example] at reference 1, the anomaly of
    [self_example] at reference 2 and an instance at reference 3 whose
    [anomaly] attribute refers to it, [insert] at index 5 returns a
    Series object with the rows that [insert] over Series values gives. *)
Lemma insert_refines_witness :
  let d : gmap string Heap.value := {[ "anomaly" := Heap.VRef 2%positive ]} in
  let w := Heap.mkWorld
             (<[ 3%positive := Heap.OInstance d ]>
                (<[ 2%positive := Heap.OSeries (anomaly self_example) ]>
                   (Heap.heap w_example))) rs_example in
  Heap.heap w !! 3%positive = Some (Heap.OInstance d)
  /\ d !! "anomaly" = Some (Heap.VRef 2%positive)
  /\ Heap.heap w !! 2%positive = Some (Heap.OSeries (anomaly self_example))
  /\ Heap.heap w !! 1%positive = Some (Heap.OSeries T_example)
  /\ exists (r : Heap.loc) (w' : Heap.World) (out : Series),
       Heap.insert 3%positive 1%positive (Some 5) w = (Ok r, w')
       /\ Heap.rng w' = rs_example
       /\ insert self_example T_example (Some 5) = Ok out
       /\ Heap.heap w' !! r = Some (Heap.OSeries out).
Proof.
  intros d w.
  assert (H1 : Heap.heap w !! 3%positive = Some (Heap.OInstance d))
    by (vm_compute; reflexivity).
  assert (H2 : d !! "anomaly" = Some (Heap.VRef 2%positive))
    by (vm_compute; reflexivity).
  assert (H3 : Heap.heap w !! 2%positive = Some (Heap.OSeries (anomaly self_example)))
    by (vm_compute; reflexivity).
  assert (H4 : Heap.heap w !! 1%positive = Some (Heap.OSeries T_example))
    by (vm_compute; reflexivity).
  split; [exact H1|]. split; [exact H2|]. split; [exact H3|]. split; [exact H4|].
  exact (HeapRefinement.insert_refines self_example 3%positive 1%positive (Some 5)
           d 2%positive T_example w H1 H2 H3 H4).
Defined.

